(** * The cla plugin of prow: label reconciliation for the EasyCLA status

    A shallow embedding of [pkg/plugins/cla/cla.go].  The two handlers,
    [handle] (status events) and [handleComment] (the [/check-cla] comment
    command), talk to GitHub through the [gitHubClient] interface only.  The
    embedding runs them in a small monad that threads the state of the client,
    records every interface call, sleep and log entry in a trace, and stops
    with a panic on a nil pointer dereference. *)

From Stdlib Require Import String Ascii List Bool ZArith Lia DecimalString.
Import ListNotations.
Local Open Scope string_scope.
Local Open Scope Z_scope.

(** ** Data of package [github] that the plugin reads

    The struct types are declared outside [cla.go]; the records keep the
    fields that [cla.go] reads and, of a comment event, the field [IsPR]
    that tells a comment on a pull request from a comment on a plain issue,
    which [cla.go] does not read. *)

Record User := { Login : string }.

Record Repo := { Owner : User; Name : string }.

Record Label := { LabelName : string }.

Record Issue := { IssueNumber : Z; Labels : list Label }.

Record PullRequestBranch := { BranchSHA : string }.

Record PullRequest := { PRNumber : Z; Head : PullRequestBranch }.

Record Status := { StContext : string; StState : string }.

Record CombinedStatus := { Statuses : list Status }.

Record StatusEvent := {
  SHA : string;
  State : string;
  Context : string;
  SERepo : Repo
}.

Record GenericCommentEvent := {
  IsPR : bool;
  IssueState : string;
  Action : string;
  Body : string;
  CERepo : Repo;
  Number : Z
}.

(** Go's [error] values: an error handed back by the client, and the two
    uses of [fmt.Errorf] in the plugin, without and with a cause wrapped by
    the [%w] verb.  [None : option error] is the nil error. *)
Inductive error : Type :=
| ClientError (msg : string)
| Errorf (msg : string)
| ErrorfWrap (msg : string) (cause : error).

(** Declarations of the packages [github] and [labels] that the plugin
    imports and whose text is not part of the plugin: the four status states,
    the comment action, the two label names and the method [Issue.HasLabel].
    They are parameters of the development. *)
Class Imports := {
  StatusPending : string;
  StatusSuccess : string;
  StatusFailure : string;
  StatusError : string;
  GenericCommentActionCreated : string;
  ClaYes : string;
  ClaNo : string;
  HasLabel : Issue -> string -> bool
}.

(** The constants declared in [cla.go] itself. *)
Definition pluginName : string := "cla".
Definition claContextName : string := "EasyCLA".
Definition maxRetries : nat := 5.

(** ** The trigger pattern [(?mi)^/check-cla\s*$]

    Go strings are byte strings, and so are Rocq's.  The matcher below is the
    regular expression read left to right: flag [m] lets [^] match at the
    start of the text and after every line feed and [$] at the end of the
    text and before every line feed; flag [i] folds case. *)

Definition LF : ascii := "010"%char.

(** [\s] in Go's syntax is the class [[\t\n\f\r ]]. *)
Definition is_space (c : ascii) : bool :=
  (c =? "009")%char || (c =? "010")%char || (c =? "012")%char
  || (c =? "013")%char || (c =? " ")%char.

Definition is_lower (c : ascii) : bool :=
  let n := nat_of_ascii c in (97 <=? n)%nat && (n <=? 122)%nat.

Definition to_upper (c : ascii) : ascii :=
  ascii_of_nat (nat_of_ascii c - 32).

(** U+212A KELVIN SIGN in UTF-8.  Under flag [i] the pattern letter [k]
    matches [k], [K] and this rune, by Unicode simple case folding. *)
Definition kelvin : string :=
  String "226"%char (String "132"%char (String "170"%char EmptyString)).

(** The byte sequences one pattern character matches under flag [i]. *)
Definition fold_variants (c : ascii) : list string :=
  if is_lower c then
    String c EmptyString :: String (to_upper c) EmptyString ::
      (if (c =? "k")%char then [kelvin] else [])
  else [String c EmptyString].

Fixpoint strip_prefix (p s : string) : option string :=
  match p with
  | EmptyString => Some s
  | String a p' =>
      match s with
      | EmptyString => None
      | String b s' => if (a =? b)%char then strip_prefix p' s' else None
      end
  end.

Fixpoint match_variants (vs : list string) (s : string) : option string :=
  match vs with
  | [] => None
  | v :: vs' =>
      match strip_prefix v s with
      | Some rest => Some rest
      | None => match_variants vs' s
      end
  end.

(** Match the literal [pat], case folded, at the head of [s]; the result is
    what follows the match. *)
Fixpoint match_literal_fold (pat s : string) : option string :=
  match pat with
  | EmptyString => Some s
  | String c pat' =>
      match match_variants (fold_variants c) s with
      | Some rest => match_literal_fold pat' rest
      | None => None
      end
  end.

(** [\s*$]: [$] holds at the end of the text and before a line feed;
    otherwise one more [\s] byte is consumed. *)
Fixpoint spaces_then_eol (s : string) : bool :=
  match s with
  | EmptyString => true
  | String c s' => (c =? LF)%char || (is_space c && spaces_then_eol s')
  end.

Definition match_here (s : string) : bool :=
  match match_literal_fold "/check-cla" s with
  | Some rest => spaces_then_eol rest
  | None => false
  end.

(** Try every position where [^] holds: [bol] tells whether the head of [s]
    is at the beginning of a line. *)
Fixpoint match_from (bol : bool) (s : string) : bool :=
  (bol && match_here s) ||
  match s with
  | EmptyString => false
  | String c s' => match_from (c =? LF)%char s'
  end.

(** [checkCLARe.MatchString]. *)
Definition checkCLARe_MatchString (body : string) : bool := match_from true body.

(** ** Effects: the client, the trace and the monad *)

Inductive Level : Type := Info | Warning | Error.

(** What a handler does to the outside: the six calls of [gitHubClient],
    [time.Sleep] (in seconds) and the log entries.  A log entry keeps its
    level, the [pr] field of the logger when set by [WithField], the error
    attached by [WithError], and the formatted message. *)
Inductive Event : Type :=
| CallAddLabel (owner repo : string) (number : Z) (label : string)
| CallRemoveLabel (owner repo : string) (number : Z) (label : string)
| CallGetPullRequest (owner repo : string) (number : Z)
| CallFindIssues (query sort : string) (asc : bool)
| CallGetIssueLabels (org repo : string) (number : Z)
| CallGetCombinedStatus (org repo ref : string)
| Sleep (seconds : Z)
| Log (lvl : Level) (pr : option Z) (err : option error) (msg : string).

(** How a Go call ends: with its results, or in a runtime panic. *)
Inductive Res (A : Type) : Type :=
| Done (a : A)
| Panic.
Arguments Done {A} a.
Arguments Panic {A}.

(** The interface [gitHubClient] over a client state [W].  A pointer result
    is an [option]: [None] is the nil pointer.  A slice result is a list
    (the plugin only ranges over it and takes its length, so nil and empty
    are one). *)
Record gitHubClient (W : Type) := {
  AddLabel : string -> string -> Z -> string -> W -> option error * W;
  RemoveLabel : string -> string -> Z -> string -> W -> option error * W;
  GetPullRequest :
    string -> string -> Z -> W -> (option PullRequest * option error) * W;
  FindIssues :
    string -> string -> bool -> W -> (list Issue * option error) * W;
  GetIssueLabels :
    string -> string -> Z -> W -> (list Label * option error) * W;
  GetCombinedStatus :
    string -> string -> string -> W -> (option CombinedStatus * option error) * W
}.
Arguments AddLabel {W} _ _ _ _ _ _.
Arguments RemoveLabel {W} _ _ _ _ _ _.
Arguments GetPullRequest {W} _ _ _ _ _.
Arguments FindIssues {W} _ _ _ _ _.
Arguments GetIssueLabels {W} _ _ _ _ _.
Arguments GetCombinedStatus {W} _ _ _ _ _.

Definition M (W A : Type) : Type := W -> Res A * W * list Event.

Definition ret {W A : Type} (a : A) : M W A := fun w => (Done a, w, []).

Definition bind {W A B : Type} (m : M W A) (k : A -> M W B) : M W B :=
  fun w =>
    match m w with
    | (Done a, w1, t1) =>
        match k a w1 with
        | (r, w2, t2) => (r, w2, (t1 ++ t2)%list)
        end
    | (Panic, w1, t1) => (Panic, w1, t1)
    end.

Definition emit {W : Type} (e : Event) : M W unit := fun w => (Done tt, w, [e]).

(** An interface call: the event is recorded, then the client answers. *)
Definition call {W A : Type} (e : Event) (f : W -> A * W) : M W A :=
  fun w => match f w with (a, w') => (Done a, w', [e]) end.

(** Reading a field through a pointer. *)
Definition deref {W A B : Type} (p : option A) (field : A -> B) : M W B :=
  fun w =>
    match p with
    | Some a => (Done (field a), w, [])
    | None => (Panic, w, [])
    end.

Declare Scope go_scope.
Delimit Scope go_scope with go.
Notation "x <- m ;; k" := (bind m (fun x => k))
  (at level 61, m at next level, right associativity) : go_scope.
Notation "' p <- m ;; k" := (bind m (fun x => match x with p => k end))
  (at level 61, p pattern, m at next level, right associativity) : go_scope.
Notation "m ;;; k" := (bind m (fun _ => k))
  (at level 61, right associativity) : go_scope.
Local Open Scope go_scope.

Definition result {W A : Type} (o : Res A * W * list Event) : Res A := fst (fst o).
Definition final {W A : Type} (o : Res A * W * list Event) : W := snd (fst o).
Definition trace {W A : Type} (o : Res A * W * list Event) : list Event := snd o.

(** Every event a computation can emit, from any state, satisfies [P]. *)
Definition emits_only {W : Type} (P : Event -> bool) {A : Type} (m : M W A) : Prop :=
  forall w, forallb P (trace (m w)) = true.

(** Every value a computation can return satisfies [Q]. *)
Definition returns_only {W A : Type} (Q : A -> Prop) (m : M W A) : Prop :=
  forall w, match result (m w) with Done a => Q a | Panic => True end.

(** A computation that ends in no panic, from any state. *)
Definition never_panics {W A : Type} (m : M W A) : Prop :=
  forall w, result (m w) <> Panic.

(** [%d] of [fmt]. *)
Definition itoa (z : Z) : string := NilZero.string_of_int (Z.to_int z).

Section Plugin.
Context {imports : Imports} {W : Type}.
Variable gc : gitHubClient W.

Definition logf (lvl : Level) (pr : option Z) (err : option error) (msg : string)
  : M W unit := emit (Log lvl pr err msg).

(** [if err != nil { log... }] *)
Definition log_if_err (lvl : Level) (pr : option Z) (err : option error)
    (msg : string) : M W unit :=
  match err with
  | Some _ => logf lvl pr err msg
  | None => ret tt
  end.

Definition addLabel (org repo : string) (number : Z) (label : string)
  : M W (option error) :=
  call (CallAddLabel org repo number label) (AddLabel gc org repo number label).

Definition removeLabel (org repo : string) (number : Z) (label : string)
  : M W (option error) :=
  call (CallRemoveLabel org repo number label) (RemoveLabel gc org repo number label).

Definition getPullRequest (org repo : string) (number : Z)
  : M W (option PullRequest * option error) :=
  call (CallGetPullRequest org repo number) (GetPullRequest gc org repo number).

Definition findIssues (query sort : string) (asc : bool)
  : M W (list Issue * option error) :=
  call (CallFindIssues query sort asc) (FindIssues gc query sort asc).

Definition getIssueLabels (org repo : string) (number : Z)
  : M W (list Label * option error) :=
  call (CallGetIssueLabels org repo number) (GetIssueLabels gc org repo number).

Definition getCombinedStatus (org repo ref : string)
  : M W (option CombinedStatus * option error) :=
  call (CallGetCombinedStatus org repo ref) (GetCombinedStatus gc org repo ref).

(** [if err := gc.RemoveLabel(...); err != nil { l.WithError(err).Warningf(
    "Could not remove %s label.", label) }] *)
Definition removeLabel_logged (pr : option Z) (org repo : string) (number : Z)
    (label : string) : M W unit :=
  err <- removeLabel org repo number label ;;
  log_if_err Warning pr err ("Could not remove " ++ label ++ " label.").

Definition addLabel_logged (pr : option Z) (org repo : string) (number : Z)
    (label : string) : M W unit :=
  err <- addLabel org repo number label ;;
  log_if_err Warning pr err ("Could not add " ++ label ++ " label.").

(** *** The status path *)

(** The query of [handle]:
    [fmt.Sprintf("%s repo:%s/%s type:pr state:open", se.SHA, org, repo)]. *)
Definition searchQuery (sha org repo : string) : string :=
  sha ++ " repo:" ++ org ++ "/" ++ repo ++ " type:pr state:open".

(** The retry loop of [handle], lines 104-113, with [remaining] the number
    of iterations left ([maxRetries - i]) and [issues] the variable the loop
    assigns.  [inl] is the early [return] with the wrapped error; [inr] is
    the value of [issues] when the loop is left by [break] or by its
    condition. *)
Fixpoint searchLoop (query : string) (remaining : nat) (issues : list Issue)
  : M W (error + list Issue) :=
  match remaining with
  | O => ret (inr issues)
  | S remaining' =>
      '(found, err) <- findIssues query "" false ;;
      match err with
      | Some e =>
          ret (inl (ErrorfWrap "error searching for issues matching commit: " e))
      | None =>
          if (0 <? length found)%nat then ret (inr found)
          else emit (Sleep 10) ;;; searchLoop query remaining' found
      end
  end.

(** The body of the loop over the issues found, lines 117-166; every
    [continue] is the end of the body. *)
Definition handleIssue (se : StatusEvent) (org repo : string) (issue : Issue)
  : M W unit :=
  let l := Some (IssueNumber issue) in
  let hasCncfYes := HasLabel issue ClaYes in
  let hasCncfNo := HasLabel issue ClaNo in
  if hasCncfYes && (State se =? StatusSuccess)%string then
    logf Info l None ("PR has up-to-date " ++ ClaYes ++ " label.")
  else if hasCncfNo &&
          ((State se =? StatusFailure)%string || (State se =? StatusError)%string) then
    logf Info l None ("PR has up-to-date " ++ ClaNo ++ " label.")
  else
    logf Info l None "PR labels may be out of date. Getting pull request info." ;;;
    '(pr, err) <- getPullRequest org repo (IssueNumber issue) ;;
    match err with
    | Some _ =>
        logf Warning l err
          ("Unable to fetch PR-" ++ itoa (IssueNumber issue) ++ " from " ++ org
           ++ "/" ++ repo ++ ".")
    | None =>
        headSHA <- deref pr (fun p => BranchSHA (Head p)) ;;
        if negb (headSHA =? SHA se)%string then
          logf Info l None "Event is not for PR HEAD, skipping."
        else
          number <- deref pr PRNumber ;;
          if (State se =? StatusSuccess)%string then
            (if hasCncfNo then removeLabel_logged l org repo number ClaNo
             else ret tt) ;;;
            addLabel_logged l org repo number ClaYes
          else
            (if hasCncfYes then removeLabel_logged l org repo number ClaYes
             else ret tt) ;;;
            addLabel_logged l org repo number ClaNo
    end.

(** [for _, issue := range issues { ... }] *)
Fixpoint forIssues (se : StatusEvent) (org repo : string) (issues : list Issue)
  : M W unit :=
  match issues with
  | [] => ret tt
  | issue :: rest => handleIssue se org repo issue ;;; forIssues se org repo rest
  end.

Definition handle (se : StatusEvent) : M W (option error) :=
  if (State se =? "")%string || (Context se =? "")%string then
    ret (Some (Errorf "invalid status event delivered with empty state/context"))
  else if negb (Context se =? claContextName)%string then ret None
  else if (State se =? StatusPending)%string then ret None
  else
    let org := Login (Owner (SERepo se)) in
    let repo := Name (SERepo se) in
    logf Info None None "Searching for PRs matching the commit." ;;;
    r <- searchLoop (searchQuery (SHA se) org repo) maxRetries [] ;;
    match r with
    | inl e => ret (Some e)
    | inr issues =>
        logf Info None None
          ("Found " ++ itoa (Z.of_nat (length issues)) ++ " PRs matching commit.") ;;;
        forIssues se org repo issues ;;;
        ret None
    end.

(** *** The comment path *)

(** The loop over the labels of the issue, lines 196-204, from the flags
    [hasCLAYes], [hasCLANo] before it to the flags after it. *)
Fixpoint scanLabels (issueLabels : list Label) (hasCLAYes hasCLANo : bool)
  : bool * bool :=
  match issueLabels with
  | [] => (hasCLAYes, hasCLANo)
  | candidate :: rest =>
      scanLabels rest
        (if (LabelName candidate =? ClaYes)%string then true else hasCLAYes)
        (if (LabelName candidate =? ClaNo)%string then true else hasCLANo)
  end.

(** What the loop over the combined statuses does with the entry of context
    [claContextName], lines 223-256. *)
Definition onClaStatus (org repo : string) (number : Z) (hasCLAYes hasCLANo : bool)
    (status : Status) : M W unit :=
  if (StState status =? StatusSuccess)%string then
    (if hasCLANo then removeLabel_logged None org repo number ClaNo
     else ret tt) ;;;
    (if negb hasCLAYes then addLabel_logged None org repo number ClaYes
     else ret tt)
  else if (StState status =? StatusFailure)%string then
    (if hasCLAYes then removeLabel_logged None org repo number ClaYes
     else ret tt) ;;;
    (if negb hasCLANo then addLabel_logged None org repo number ClaNo
     else ret tt)
  else ret tt.

(** The loop over the combined statuses, lines 218-261: the first entry of
    context [claContextName] decides, then [break]. *)
Fixpoint scanStatuses (org repo : string) (number : Z) (hasCLAYes hasCLANo : bool)
    (statuses : list Status) : M W unit :=
  match statuses with
  | [] => ret tt
  | status :: rest =>
      if (StContext status =? claContextName)%string then
        onClaStatus org repo number hasCLAYes hasCLANo status
      else scanStatuses org repo number hasCLAYes hasCLANo rest
  end.

Definition handleComment (e : GenericCommentEvent) : M W (option error) :=
  if negb (IssueState e =? "open")%string
     || negb (Action e =? GenericCommentActionCreated)%string then ret None
  else if negb (checkCLARe_MatchString (Body e)) then ret None
  else
    let org := Login (Owner (CERepo e)) in
    let repo := Name (CERepo e) in
    let number := Number e in
    '(issueLabels, err) <- getIssueLabels org repo number ;;
    log_if_err Error None err
      ("Failed to get the labels on " ++ org ++ "/" ++ repo ++ "#" ++ itoa number
       ++ ".") ;;;
    let '(hasCLAYes, hasCLANo) := scanLabels issueLabels false false in
    '(pr, err) <- getPullRequest org repo (Number e) ;;
    log_if_err Error None err
      ("Unable to fetch PR-" ++ itoa (Number e) ++ " from " ++ org ++ "/" ++ repo
       ++ ".") ;;;
    ref <- deref pr (fun p => BranchSHA (Head p)) ;;
    '(combined, err) <- getCombinedStatus org repo ref ;;
    log_if_err Error None err
      ("Failed to get statuses on " ++ org ++ "/" ++ repo ++ "#" ++ itoa number) ;;;
    statuses <- deref combined Statuses ;;
    scanStatuses org repo number hasCLAYes hasCLANo statuses ;;;
    ret None.

End Plugin.

(** ** Reading a trace *)

Definition is_mutation (e : Event) : bool :=
  match e with
  | CallAddLabel _ _ _ _ | CallRemoveLabel _ _ _ _ => true
  | _ => false
  end.

Definition is_search (e : Event) : bool :=
  match e with
  | CallFindIssues _ _ _ => true
  | _ => false
  end.

Definition is_call (e : Event) : bool :=
  match e with
  | Sleep _ | Log _ _ _ _ => false
  | _ => true
  end.

(** The label additions and removals of a trace, in order. *)
Definition mutations (t : list Event) : list Event := filter is_mutation t.

(** The searches of a trace. *)
Definition searches (t : list Event) : list Event := filter is_search t.

(** The interface calls of a trace. *)
Definition calls (t : list Event) : list Event := filter is_call t.

(** The entry of a combined status that the comment path acts on: the first
    one of context [claContextName]. *)
Definition claEntry (cs : CombinedStatus) : option Status :=
  find (fun s => (StContext s =? claContextName)%string) (Statuses cs).

(** Whether a label of that name is among the labels fetched. *)
Definition named (name : string) (ls : list Label) : bool :=
  existsb (fun l => (LabelName l =? name)%string) ls.

(** ** A client that answers from a script

    The counterpart of the fake client of the plugin's tests: it has no
    state and answers every call with the scripted result. *)

Record Script := {
  onFindIssues : list Issue * option error;
  onGetPullRequest : option PullRequest * option error;
  onGetIssueLabels : list Label * option error;
  onGetCombinedStatus : option CombinedStatus * option error;
  onAddLabel : option error;
  onRemoveLabel : option error
}.

Definition scripted (s : Script) : gitHubClient unit := {|
  AddLabel := fun _ _ _ _ w => (onAddLabel s, w);
  RemoveLabel := fun _ _ _ _ w => (onRemoveLabel s, w);
  GetPullRequest := fun _ _ _ w => (onGetPullRequest s, w);
  FindIssues := fun _ _ _ w => (onFindIssues s, w);
  GetIssueLabels := fun _ _ _ w => (onGetIssueLabels s, w);
  GetCombinedStatus := fun _ _ _ w => (onGetCombinedStatus s, w)
|}.

(** Modelled from the spec: the values of the declarations that [cla.go]
    imports from the packages [github] and [labels] are not in [cla.go].  The
    four states are the ones the specification names (pending, success,
    failure, error), the action is the one of a newly created comment, the
    labels are the two [cncf-cla] labels of the help text, and
    [Issue.HasLabel] looks the name up among the labels of the issue.  The
    runs below spell the labels as declared, so it does not matter there
    whether that lookup folds case. *)
Definition prow : Imports := {|
  StatusPending := "pending";
  StatusSuccess := "success";
  StatusFailure := "failure";
  StatusError := "error";
  GenericCommentActionCreated := "created";
  ClaYes := "cncf-cla: yes";
  ClaNo := "cncf-cla: no";
  HasLabel := fun issue name => named name (Labels issue)
|}.

Definition k8s : Repo := {| Owner := {| Login := "kubernetes" |}; Name := "test-infra" |}.

Definition statusEvent (state context sha : string) : StatusEvent :=
  {| SHA := sha; State := state; Context := context; SERepo := k8s |}.

Definition commentEvent (state action body : string) : GenericCommentEvent :=
  {| IsPR := true; IssueState := state; Action := action; Body := body;
     CERepo := k8s; Number := 3 |}.

Definition lbl (name : string) : Label := {| LabelName := name |}.

Definition pr3 (sha : string) : PullRequest :=
  {| PRNumber := 3; Head := {| BranchSHA := sha |} |}.

Definition issue3 (names : list string) : Issue :=
  {| IssueNumber := 3; Labels := map lbl names |}.

Definition combined (entries : list (string * string)) : CombinedStatus :=
  {| Statuses := map (fun p => {| StContext := fst p; StState := snd p |}) entries |}.

(** A script whose label calls succeed. *)
Definition answering (found : list Issue * option error)
    (pr : option PullRequest * option error) (ls : list Label * option error)
    (cs : option CombinedStatus * option error) : Script :=
  {| onFindIssues := found; onGetPullRequest := pr; onGetIssueLabels := ls;
     onGetCombinedStatus := cs; onAddLabel := None; onRemoveLabel := None |}.

(** The comment [/check-cla], newly created on the open pull request 3. *)
Definition checkCla : GenericCommentEvent := commentEvent "open" "created" "/check-cla".

(** The same comment, newly created on the open issue 3, which is no pull
    request. *)
Definition checkClaOnIssue : GenericCommentEvent :=
  {| IsPR := false; IssueState := "open"; Action := "created"; Body := "/check-cla";
     CERepo := k8s; Number := 3 |}.

(** The status event of the given state for the CLA context and the commit
    [abc]. *)
Definition claStatus (state : string) : StatusEvent := statusEvent state "EasyCLA" "abc".

(** The search finds issue 3 with the labels [names]; its pull request has
    the head commit [head]. *)
Definition found (names : list string) (head : string) : Script :=
  answering ([issue3 names], None) (Some (pr3 head), None) ([], None) (None, None).

(** The search finds nothing. *)
Definition nothingFound : Script :=
  answering ([], None) (None, None) ([], None) (None, None).

(** The search fails. *)
Definition searchFails : Script :=
  answering ([], Some (ClientError "search failed")) (None, None) ([], None) (None, None).

(** Pull request 3 has the labels [names], the head commit [abc] and the
    combined status [entries]. *)
Definition commented (names : list string) (entries : list (string * string)) : Script :=
  answering ([], None) (Some (pr3 "abc"), None) (map lbl names, None)
    (Some (combined entries), None).

(** The labels cannot be fetched; the CLA status of the head commit is
    success. *)
Definition labelsFail : Script :=
  answering ([], None) (Some (pr3 "abc"), None) ([], Some (ClientError "labels unavailable"))
    (Some (combined [("EasyCLA", "success")]), None).

(** The pull request cannot be fetched. *)
Definition pullRequestFails : Script :=
  answering ([], None) (None, Some (ClientError "pull request unavailable"))
    ([lbl "cncf-cla: no"], None) (Some (combined [("EasyCLA", "success")]), None).

(** The combined status cannot be fetched. *)
Definition statusFails : Script :=
  answering ([], None) (Some (pr3 "abc"), None) ([lbl "cncf-cla: no"], None)
    (None, Some (ClientError "statuses unavailable")).

(** Whether a body holds the byte [/]. *)
Fixpoint has_slash (s : string) : bool :=
  match s with
  | EmptyString => false
  | String c s' => (c =? "/")%char || has_slash s'
  end.

(** ** What the statements below speak about *)

Section Readings.
Context {imports : Imports} {W : Type}.
Variable gc : gitHubClient W.

(** A status event gets past the three early returns of [handle]. *)
Definition passes_early_checks (se : StatusEvent) : Prop :=
  State se <> "" /\ Context se = claContextName /\ State se <> StatusPending.

(** Each of the next [attempts] searches, one after the other from the
    client state [w], finds no issue and reports no error. *)
Fixpoint always_empty (query : string) (attempts : nat) (w : W) : Prop :=
  match attempts with
  | O => True
  | S n =>
      fst (FindIssues gc query "" false w) = ([], None) /\
      always_empty query n (snd (FindIssues gc query "" false w))
  end.

(** The client state after [attempts] searches made one after the other
    from [w]. *)
Fixpoint after_searches (query : string) (attempts : nat) (w : W) : W :=
  match attempts with
  | O => w
  | S n => after_searches query n (snd (FindIssues gc query "" false w))
  end.

(** The first guard or the second guard of the loop body holds: the issue
    already carries the label of the verdict. *)
Definition up_to_date (se : StatusEvent) (issue : Issue) : bool :=
  (HasLabel issue ClaYes && (State se =? StatusSuccess)%string)
  || (HasLabel issue ClaNo &&
      ((State se =? StatusFailure)%string || (State se =? StatusError)%string)).

(** The label changes of the comment path, in order, for the flags read
    from the labels and the state of the entry acted on. *)
Definition comment_changes (org repo : string) (number : Z) (hasCLAYes hasCLANo : bool)
    (state : string) : list Event :=
  if (state =? StatusSuccess)%string then
    ((if hasCLANo then [CallRemoveLabel org repo number ClaNo] else [])
     ++ (if hasCLAYes then [] else [CallAddLabel org repo number ClaYes]))%list
  else if (state =? StatusFailure)%string then
    ((if hasCLAYes then [CallRemoveLabel org repo number ClaYes] else [])
     ++ (if hasCLANo then [] else [CallAddLabel org repo number ClaNo]))%list
  else [].

(** A comment event gets past the two early returns of [handleComment]. *)
Definition triggers (e : GenericCommentEvent) : Prop :=
  IssueState e = "open" /\ Action e = GenericCommentActionCreated /\
  checkCLARe_MatchString (Body e) = true.

(** From the client state [w] the three fetches of the comment path answer
    with the labels [ls], a pull request and the combined status [cs] of its
    head commit (each with or without an error next to it). *)
Definition comment_reads (e : GenericCommentEvent) (w : W) (ls : list Label)
    (cs : CombinedStatus) : Prop :=
  let org := Login (Owner (CERepo e)) in
  let repo := Name (CERepo e) in
  exists lerr w1 pr perr w2 cerr w3,
    GetIssueLabels gc org repo (Number e) w = ((ls, lerr), w1) /\
    GetPullRequest gc org repo (Number e) w1 = ((Some pr, perr), w2) /\
    GetCombinedStatus gc org repo (BranchSHA (Head pr)) w2 = ((Some cs, cerr), w3).

End Readings.

(** The trigger as the specification words it: the command alone on a
    line, case ignored, with blanks allowed before and after it on that
    line. *)

Definition blank (c : ascii) : bool := is_space c && negb (c =? LF)%char.

Fixpoint all_blank (s : string) : bool :=
  match s with
  | EmptyString => true
  | String c s' => blank c && all_blank s'
  end.

(** The texts that one character of the command stands for when case is
    ignored. *)
Inductive same_letter : ascii -> string -> Prop :=
| same_exact (c : ascii) : same_letter c (String c EmptyString)
| same_upper (c : ascii) :
    is_lower c = true -> same_letter c (String (to_upper c) EmptyString)
| same_kelvin : same_letter "k"%char kelvin.

Inductive same_text : string -> string -> Prop :=
| same_nil : same_text EmptyString EmptyString
| same_cons (c : ascii) (pat x xs : string) :
    same_letter c x -> same_text pat xs -> same_text (String c pat) (x ++ xs).

Definition line_start (pre : string) : Prop :=
  pre = "" \/ exists p, pre = p ++ String LF "".

Definition line_end (post : string) : Prop :=
  post = "" \/ exists q, post = String LF q.

(** The pattern read as a regular expression, part by part: [^], the
    literal up to case, [\s*], [$]. *)
Fixpoint all_space (s : string) : bool :=
  match s with
  | EmptyString => true
  | String c s' => is_space c && all_space s'
  end.

Definition pattern_matches (body : string) : Prop :=
  exists pre cmd ws post,
    body = pre ++ cmd ++ ws ++ post /\
    line_start pre /\ same_text "/check-cla" cmd /\
    all_space ws = true /\ line_end post.

Definition command_on_own_line (body : string) : Prop :=
  exists pre lead cmd trail post,
    body = pre ++ lead ++ cmd ++ trail ++ post /\
    line_start pre /\ line_end post /\
    all_blank lead = true /\ all_blank trail = true /\
    same_text "/check-cla" cmd.

(** ** The entry points and the help of the plugin *)

(** The part of [plugins.Agent] that the plugin uses: the client.  (The
    logger of the agent is where the log entries of the trace go.) *)
Record Agent (W : Type) := { GitHubClient : gitHubClient W }.
Arguments GitHubClient {W} _.

Definition handleStatusEvent {imports : Imports} {W : Type} (pc : Agent W)
    (se : StatusEvent) : M W (option error) :=
  handle (GitHubClient pc) se.

Definition handleCommentEvent {imports : Imports} {W : Type} (pc : Agent W)
    (ce : GenericCommentEvent) : M W (option error) :=
  handleComment (GitHubClient pc) ce.

(** The fields of [pluginhelp.Command] and [pluginhelp.PluginHelp] that
    [helpProvider] sets. *)
Record Command := {
  Usage : string;
  CommandDescription : string;
  Featured : bool;
  WhoCanUse : string;
  Examples : list string
}.

Record PluginHelp := { Description : string; Commands : list Command }.

(** Modelled from the spec: [PluginHelp.AddCommand] is a method of package
    [pluginhelp], outside [cla.go]; the help names the commands given to it,
    so the command is added after the commands already there. *)
Definition AddCommand (pluginHelp : PluginHelp) (command : Command) : PluginHelp :=
  {| Description := Description pluginHelp;
     Commands := (Commands pluginHelp ++ [command])%list |}.

Definition helpProvider {Configuration OrgRepo : Type} (config : Configuration)
    (enabledRepos : list OrgRepo) : PluginHelp * option error :=
  let pluginHelp :=
    {| Description :=
         "The cla plugin manages the application and removal of the 'cncf-cla' prefixed labels on pull requests as a reaction to the "
         ++ claContextName
         ++ " github status context. It is also responsible for warning unauthorized PR authors that they need to sign the CNCF CLA before their PR will be merged.";
       Commands := [] |} in
  let pluginHelp :=
    AddCommand pluginHelp
      {| Usage := "/check-cla";
         CommandDescription := "Forces rechecking of the CLA status.";
         Featured := true;
         WhoCanUse := "Anyone";
         Examples := ["/check-cla"] |} in
  (pluginHelp, None).

(** ** More readings of a trace and of a client *)

(** The seconds slept in a trace. *)
Fixpoint slept (t : list Event) : Z :=
  match t with
  | [] => 0
  | Sleep seconds :: t' => seconds + slept t'
  | _ :: t' => slept t'
  end.

Section Footprints.
Context {imports : Imports}.

Definition is_cla_label (label : string) : bool :=
  (label =? ClaYes)%string || (label =? ClaNo)%string.

(** The events open to the status path for the event [se]: the search with
    the query of [se], the fetch of a pull request of its repository, a
    change of one of the two CLA labels in that repository, the sleep of ten
    seconds and log entries. *)
Definition status_path_event (se : StatusEvent) (e : Event) : bool :=
  let org := Login (Owner (SERepo se)) in
  let repo := Name (SERepo se) in
  match e with
  | CallFindIssues query sort asc =>
      (query =? searchQuery (SHA se) org repo)%string && (sort =? "")%string && negb asc
  | CallGetPullRequest o r _ => (o =? org)%string && (r =? repo)%string
  | CallAddLabel o r _ label | CallRemoveLabel o r _ label =>
      (o =? org)%string && (r =? repo)%string && is_cla_label label
  | Sleep seconds => seconds =? 10
  | Log _ _ _ _ => true
  | CallGetIssueLabels _ _ _ | CallGetCombinedStatus _ _ _ => false
  end.

(** The events open to the comment path for the event [ce]: the fetch of
    the labels and of the pull request of its number, the fetch of a combined
    status in its repository, a change of one of the two CLA labels on its
    number, and log entries. *)
Definition comment_path_event (ce : GenericCommentEvent) (e : Event) : bool :=
  let org := Login (Owner (CERepo ce)) in
  let repo := Name (CERepo ce) in
  match e with
  | CallGetIssueLabels o r n | CallGetPullRequest o r n =>
      (o =? org)%string && (r =? repo)%string && (n =? Number ce)
  | CallGetCombinedStatus o r _ => (o =? org)%string && (r =? repo)%string
  | CallAddLabel o r n label | CallRemoveLabel o r n label =>
      (o =? org)%string && (r =? repo)%string && (n =? Number ce) && is_cla_label label
  | Log _ _ _ _ => true
  | CallFindIssues _ _ _ | Sleep _ => false
  end.

End Footprints.

(** The state of the client after the label calls [changes], made in
    order from the state [w]. *)
Fixpoint apply_changes {W : Type} (gc : gitHubClient W) (changes : list Event) (w : W) : W :=
  match changes with
  | [] => w
  | CallAddLabel org repo number label :: rest =>
      apply_changes gc rest (snd (AddLabel gc org repo number label w))
  | CallRemoveLabel org repo number label :: rest =>
      apply_changes gc rest (snd (RemoveLabel gc org repo number label w))
  | _ :: rest => apply_changes gc rest w
  end.

(** A client answers a fetch of a pull request with nil only when it
    reports an error. *)
Definition nil_only_with_error {W : Type} (gc : gitHubClient W) : Prop :=
  forall org repo number w,
    fst (fst (GetPullRequest gc org repo number w)) = None ->
    snd (fst (GetPullRequest gc org repo number w)) <> None.

(** Whether a label that [eqv] takes for [name] is among the names [w]. *)
Definition carries (eqv : string -> string -> bool) (name : string)
    (w : list string) : bool :=
  existsb (fun x => eqv x name) w.

Definition store_add_by (eqv : string -> string -> bool) (label : string)
    (w : list string) : list string :=
  if carries eqv label w then w else (w ++ [label])%list.

Definition store_remove_by (eqv : string -> string -> bool) (label : string)
    (w : list string) : list string :=
  filter (fun x => negb (eqv x label)) w.

(** The client that keeps the labels of one pull request, with label names
    told apart up to [eqv] (GitHub ignores case in the names of labels):
    adding a label that is there up to [eqv] changes nothing, removing a
    label removes every name that [eqv] takes for it.  The search finds the
    pull request with the labels it has. *)
Definition labelStoreBy (eqv : string -> string -> bool) (pr : PullRequest)
    (cs : CombinedStatus) : gitHubClient (list string) := {|
  AddLabel := fun _ _ _ label w => (None, store_add_by eqv label w);
  RemoveLabel := fun _ _ _ label w => (None, store_remove_by eqv label w);
  GetPullRequest := fun _ _ _ w => ((Some pr, None), w);
  FindIssues := fun _ _ _ w =>
    (([{| IssueNumber := PRNumber pr; Labels := map lbl w |}], None), w);
  GetIssueLabels := fun _ _ _ w => ((map lbl w, None), w);
  GetCombinedStatus := fun _ _ _ w => ((Some cs, None), w)
|}.

Definition is_upper (c : ascii) : bool :=
  let n := nat_of_ascii c in (65 <=? n)%nat && (n <=? 90)%nat.

Definition to_lower (c : ascii) : ascii :=
  if is_upper c then ascii_of_nat (nat_of_ascii c + 32) else c.

Fixpoint lower (s : string) : string :=
  match s with
  | EmptyString => EmptyString
  | String c s' => String (to_lower c) (lower s')
  end.

(** Equality of two names up to the case of ASCII letters. *)
Definition equalFold (a b : string) : bool := (lower a =? lower b)%string.

(** Modelled from the spec: [Issue.HasLabel] is a method of package
    [github], outside [cla.go]; there it is a lookup among the labels of the
    issue that ignores case ([strings.EqualFold]).  [equalFold] is that
    comparison on ASCII letters, and the other declarations are those of
    [prow]. *)
Definition prowFold : Imports := {|
  StatusPending := "pending";
  StatusSuccess := "success";
  StatusFailure := "failure";
  StatusError := "error";
  GenericCommentActionCreated := "created";
  ClaYes := "cncf-cla: yes";
  ClaNo := "cncf-cla: no";
  HasLabel := fun issue name =>
    existsb (fun l => equalFold (LabelName l) name) (Labels issue)
|}.

(** A client whose search index lags: its state counts the searches made,
    the first [lag] searches find nothing and the later ones find issue 3
    with the labels [names]; its pull request has the head commit [head]. *)
Definition lagging (lag : nat) (names : list string) (head : string)
  : gitHubClient nat := {|
  AddLabel := fun _ _ _ _ w => (None, w);
  RemoveLabel := fun _ _ _ _ w => (None, w);
  GetPullRequest := fun _ _ _ w => ((Some (pr3 head), None), w);
  FindIssues := fun _ _ _ w =>
    ((if (w <? lag)%nat then [] else [issue3 names], None), S w);
  GetIssueLabels := fun _ _ _ w => (([], None), w);
  GetCombinedStatus := fun _ _ _ w => ((None, None), w)
|}.

(** The search finds the unlabelled issue 3 and issue 4 with the negative
    label; every pull request fetched has the head commit [def]. *)
Definition twoFound : Script :=
  answering ([ {| IssueNumber := 3; Labels := [] |};
               {| IssueNumber := 4; Labels := [lbl "cncf-cla: no"] |} ], None)
    (Some (pr3 "def"), None) ([], None) (None, None).

(** The pull request comes back together with an error. *)
Definition fetchFails : Script :=
  answering ([issue3 ["cncf-cla: no"]], None)
    (Some (pr3 "abc"), Some (ClientError "rate limited")) ([], None) (None, None).

(** Whether a text holds a line feed. *)
Fixpoint has_LF (s : string) : bool :=
  match s with
  | EmptyString => false
  | String c s' => (c =? LF)%char || has_LF s'
  end.

Definition store_add (label : string) (w : list string) : list string :=
  if existsb (String.eqb label) w then w else (w ++ [label])%list.

Definition store_remove (label : string) (w : list string) : list string :=
  filter (fun name => negb (name =? label)%string) w.

(** A client that keeps the labels of one pull request: its state is the
    list of the names of the labels.  Adding a label that is there and
    removing one that is not change nothing; every call succeeds.  The pull
    request and the combined status of its head commit are fixed. *)
Definition labelStore (pr : PullRequest) (cs : CombinedStatus)
  : gitHubClient (list string) := {|
  AddLabel := fun _ _ _ label w => (None, store_add label w);
  RemoveLabel := fun _ _ _ label w => (None, store_remove label w);
  GetPullRequest := fun _ _ _ w => ((Some pr, None), w);
  FindIssues := fun _ _ _ w =>
    (([{| IssueNumber := PRNumber pr; Labels := map lbl w |}], None), w);
  GetIssueLabels := fun _ _ _ w => ((map lbl w, None), w);
  GetCombinedStatus := fun _ _ _ w => ((Some cs, None), w)
|}.

(** * Properties *)

(** ** Runs of the monad *)

Section Runs.
Context {W : Type}.

Lemma trace_bind {A B : Type} (m : M W A) (k : A -> M W B) (w : W) :
  trace (bind m k w) =
  match result (m w) with
  | Done a => (trace (m w) ++ trace (k a (final (m w))))%list
  | Panic => trace (m w)
  end.
Proof.
  unfold bind, trace, result, final.
  destruct (m w) as [[[a|] w1] t1]; simpl; [|reflexivity].
  destruct (k a w1) as [[r w2] t2]; reflexivity.
Qed.

Lemma bind_run {A B : Type} (m : M W A) (k : A -> M W B) (w w1 : W) a t1 :
  m w = (Done a, w1, t1) ->
  bind m k w = (result (k a w1), final (k a w1), (t1 ++ trace (k a w1))%list).
Proof.
  intros E. unfold bind, result, final, trace. rewrite E.
  destruct (k a w1) as [[r w2] t2]; reflexivity.
Qed.

Lemma emits_ret P {A : Type} (a : A) : emits_only P (ret (W := W) a).
Proof. intros w; reflexivity. Qed.

Lemma emits_emit P (e : Event) : P e = true -> emits_only P (emit (W := W) e).
Proof. intros H w; simpl; rewrite H; reflexivity. Qed.

Lemma emits_call P {A : Type} (e : Event) (f : W -> A * W) :
  P e = true -> emits_only P (call e f).
Proof.
  intros H w; unfold call, trace. destruct (f w); simpl. rewrite H; reflexivity.
Qed.

Lemma emits_deref P {A B : Type} (p : option A) (field : A -> B) :
  emits_only P (deref (W := W) p field).
Proof. intros w; destruct p; reflexivity. Qed.

Lemma emits_bind P {A B : Type} (m : M W A) (k : A -> M W B) :
  emits_only P m -> (forall a, emits_only P (k a)) -> emits_only P (bind m k).
Proof.
  intros Hm Hk w. rewrite trace_bind.
  destruct (result (m w)); [|apply Hm].
  rewrite forallb_app, Hm, Hk; reflexivity.
Qed.

Lemma filter_none (f : Event -> bool) (t : list Event) :
  forallb (fun e => negb (f e)) t = true -> filter f t = [].
Proof.
  induction t as [|e t IH]; simpl; [reflexivity|].
  destruct (f e); simpl; [discriminate|exact IH].
Qed.

End Runs.

Ltac emits_step :=
  first
    [ apply emits_ret
    | apply emits_deref
    | apply emits_emit; reflexivity
    | apply emits_call; reflexivity
    | apply emits_bind; [|intros]
    | match goal with
      | |- emits_only _ (match ?x with _ => _ end) => destruct x
      end ].

Ltac emits := repeat emits_step.

(** ** The trigger pattern *)

Lemma append_assoc (a b c : string) : (a ++ b) ++ c = a ++ b ++ c.
Proof. induction a as [|x a IH]; simpl; [|rewrite IH]; reflexivity. Qed.

Lemma strip_prefix_sound p :
  forall s rest, strip_prefix p s = Some rest -> s = p ++ rest.
Proof.
  induction p as [|a p IH]; intros s rest; simpl.
  - intros [= ->]. reflexivity.
  - destruct s as [|b s]; [discriminate|].
    destruct (Ascii.eqb_spec a b) as [->|]; [|discriminate].
    intros H. rewrite (IH _ _ H). reflexivity.
Qed.

Lemma match_variants_sound vs :
  forall s rest, match_variants vs s = Some rest ->
  exists v, In v vs /\ s = v ++ rest.
Proof.
  induction vs as [|v vs IH]; intros s rest; simpl; [discriminate|].
  destruct (strip_prefix v s) as [r|] eqn:E.
  - intros [= ->]. exists v. split; [left; reflexivity|].
    apply strip_prefix_sound, E.
  - intros H. destruct (IH _ _ H) as (v' & Hin & Hs). eauto.
Qed.

Lemma fold_variants_same c v : In v (fold_variants c) -> same_letter c v.
Proof.
  unfold fold_variants. destruct (is_lower c) eqn:L.
  - intros [<-|[<-|H]].
    + constructor.
    + constructor. exact L.
    + destruct (Ascii.eqb_spec c "k") as [->|]; [|destruct H].
      destruct H as [<-|[]]. constructor.
  - intros [<-|[]]. constructor.
Qed.

(** What the folded literal matches is the command up to case. *)
Lemma match_literal_fold_sound pat :
  forall s rest, match_literal_fold pat s = Some rest ->
  exists cmd, s = cmd ++ rest /\ same_text pat cmd.
Proof.
  induction pat as [|c pat IH]; intros s rest; simpl.
  - intros [= ->]. exists "". split; [reflexivity|constructor].
  - destruct (match_variants (fold_variants c) s) as [r|] eqn:E; [|discriminate].
    intros H. destruct (match_variants_sound _ _ _ E) as (v & Hin & ->).
    destruct (IH _ _ H) as (cmd & -> & Hc).
    exists (v ++ cmd). rewrite append_assoc. split; [reflexivity|].
    constructor; [apply fold_variants_same, Hin|exact Hc].
Qed.

(** What [\s*$] matches: blanks up to the end of the line. *)
Lemma spaces_then_eol_sound s :
  spaces_then_eol s = true ->
  exists trail post, s = trail ++ post /\ all_blank trail = true /\ line_end post.
Proof.
  induction s as [|c s IH]; simpl.
  - intros _. exists "", "". repeat split. left; reflexivity.
  - destruct (Ascii.eqb_spec c LF) as [->|Hc]; simpl.
    + intros _. exists "", (String LF s). repeat split. right; eauto.
    + rewrite andb_true_iff. intros [Hs H].
      destruct (IH H) as (trail & post & -> & Hb & He).
      exists (String c trail), post. repeat split; [|exact He].
      simpl. unfold blank. rewrite Hs, Hb.
      apply Ascii.eqb_neq in Hc. rewrite Hc. reflexivity.
Qed.

(** Where [^] holds: at the start of the text or just after a line feed. *)
Lemma match_from_sound s :
  forall bol, match_from bol s = true ->
  exists pre rest,
    s = pre ++ rest /\ match_here rest = true /\
    ((pre = "" /\ bol = true) \/ exists p, pre = p ++ String LF "").
Proof.
  induction s as [|c s IH]; intros bol; cbn [match_from]; rewrite orb_true_iff.
  - intros [H|H]; [|discriminate].
    apply andb_true_iff in H. destruct H as [-> H].
    exists "", "". auto.
  - intros [H|H].
    + apply andb_true_iff in H. destruct H as [-> H].
      exists "", (String c s). auto.
    + destruct (IH _ H) as (pre & rest & -> & Hm & Hp).
      exists (String c pre), rest. repeat split; [exact Hm|].
      right. destruct Hp as [[-> Hc]|(p & ->)].
      * apply Ascii.eqb_eq in Hc. subst c. exists "". reflexivity.
      * exists (String c p). reflexivity.
Qed.

(** A body that the pattern matches holds the command on a line of its
    own in the sense of the specification. *)
Lemma checkCLARe_sound body :
  checkCLARe_MatchString body = true -> command_on_own_line body.
Proof.
  unfold checkCLARe_MatchString. intros H.
  destruct (match_from_sound _ _ H) as (pre & rest & -> & Hm & Hp).
  unfold match_here in Hm.
  destruct (match_literal_fold "/check-cla" rest) as [r|] eqn:E; [|discriminate].
  destruct (match_literal_fold_sound _ _ _ E) as (cmd & -> & Hc).
  destruct (spaces_then_eol_sound _ Hm) as (trail & post & -> & Hb & He).
  exists pre, "", cmd, trail, post. repeat split; try assumption.
  destruct Hp as [[-> _]|Hp]; [left; reflexivity|right; exact Hp].
Qed.

(** The other way round: the matcher finds every match of the pattern. *)

Lemma to_upper_differs c : is_lower c = true -> (c =? to_upper c)%char = false.
Proof.
  destruct c as [b0 b1 b2 b3 b4 b5 b6 b7].
  destruct b0, b1, b2, b3, b4, b5, b6, b7; intros H; try discriminate H; reflexivity.
Qed.

Lemma match_variants_complete c x rest :
  same_letter c x -> match_variants (fold_variants c) (x ++ rest) = Some rest.
Proof.
  intros H. destruct H as [c|c L|].
  - unfold fold_variants. destruct (is_lower c); simpl; rewrite Ascii.eqb_refl; reflexivity.
  - unfold fold_variants. rewrite L. simpl.
    rewrite (to_upper_differs c L), Ascii.eqb_refl. reflexivity.
  - reflexivity.
Qed.

Lemma match_literal_fold_complete pat cmd :
  same_text pat cmd -> forall rest, match_literal_fold pat (cmd ++ rest) = Some rest.
Proof.
  induction 1 as [|c pat x xs Hx Hxs IH]; intros rest; [reflexivity|].
  simpl. rewrite append_assoc, (match_variants_complete c x _ Hx). apply IH.
Qed.

Lemma spaces_then_eol_complete ws post :
  all_space ws = true -> line_end post -> spaces_then_eol (ws ++ post) = true.
Proof.
  intros Hw He. induction ws as [|c ws IH]; simpl.
  - destruct He as [->|(q & ->)]; reflexivity.
  - simpl in Hw. apply andb_true_iff in Hw. destruct Hw as [Hc Hw].
    rewrite Hc, (IH Hw). apply orb_true_r.
Qed.

Lemma match_from_complete rest :
  match_here rest = true ->
  forall pre bol,
    (pre = "" /\ bol = true) \/ (exists p, pre = p ++ String LF "") ->
    match_from bol (pre ++ rest) = true.
Proof.
  intros Hm. induction pre as [|c pre IH]; intros bol H.
  - destruct H as [[_ ->]|(p & Hp)].
    + change ("" ++ rest) with rest.
      destruct rest; cbn [match_from]; rewrite Hm; reflexivity.
    + destruct p; discriminate Hp.
  - change (String c pre ++ rest) with (String c (pre ++ rest)).
    cbn [match_from]. rewrite (IH (c =? LF)%char); [apply orb_true_r|].
    destruct H as [[H _]|(p & Hp)]; [discriminate H|].
    destruct p as [|d p]; simpl in Hp.
    + injection Hp as -> ->. left. split; reflexivity.
    + injection Hp as -> ->. right. eauto.
Qed.

Lemma all_blank_space s : all_blank s = true -> all_space s = true.
Proof.
  induction s as [|c s IH]; simpl; [reflexivity|].
  unfold blank. rewrite !andb_true_iff. intros [[H _] Hs]. auto.
Qed.

(** X20.  [checkCLARe.MatchString] is the pattern: it accepts a body
    exactly when the body splits into a part that ends a line (or is
    empty), the command up to case, bytes of the class [\s], and a part that
    begins a line (or is empty). *)
Lemma checkCLARe_spec body :
  checkCLARe_MatchString body = true <-> pattern_matches body.
Proof.
  unfold checkCLARe_MatchString. split.
  - intros H.
    destruct (match_from_sound _ _ H) as (pre & rest & -> & Hm & Hp).
    unfold match_here in Hm.
    destruct (match_literal_fold "/check-cla" rest) as [r|] eqn:E; [|discriminate].
    destruct (match_literal_fold_sound _ _ _ E) as (cmd & -> & Hc).
    destruct (spaces_then_eol_sound _ Hm) as (trail & post & -> & Hb & He).
    exists pre, cmd, trail, post. repeat split; try assumption.
    + destruct Hp as [[-> _]|Hp]; [left; reflexivity|right; exact Hp].
    + apply all_blank_space, Hb.
  - intros (pre & cmd & ws & post & -> & Hp & Hc & Hw & He).
    apply match_from_complete.
    + unfold match_here. rewrite (match_literal_fold_complete _ _ Hc).
      apply spaces_then_eol_complete; assumption.
    + destruct Hp as [->|Hp]; [left; split; reflexivity|right; exact Hp].
Qed.

(** The pattern is narrower than those words: it takes no blank before the
    command. *)
Example blank_before_command :
  command_on_own_line " /check-cla" /\ checkCLARe_MatchString " /check-cla" = false.
Proof.
  split; [|reflexivity].
  exists "", " ", "/check-cla", "", "". repeat split; try (left; reflexivity).
  change "/check-cla" with ("/" ++ "c" ++ "h" ++ "e" ++ "c" ++ "k" ++ "-" ++ "c" ++ "l" ++ "a" ++ "").
  repeat constructor.
Qed.

Lemma has_slash_app a b : has_slash (a ++ b) = has_slash a || has_slash b.
Proof.
  induction a as [|c a IH]; simpl; [reflexivity|].
  rewrite IH, orb_assoc. reflexivity.
Qed.

(** No command without its slash. *)
Lemma command_has_slash body : command_on_own_line body -> has_slash body = true.
Proof.
  intros (pre & lead & cmd & trail & post & -> & _ & _ & _ & _ & Hc).
  rewrite !has_slash_app.
  assert (H : has_slash cmd = true).
  { inversion Hc as [|c pat x xs Hx Hxs]; subst.
    rewrite has_slash_app. inversion Hx; subst; try discriminate. reflexivity. }
  rewrite H, !orb_true_r. reflexivity.
Qed.

(** ** The status path *)

Section StatusPath.
Context {imports : Imports} {W : Type}.
Variable gc : gitHubClient W.

(** The loop over the issues never searches. *)
Lemma handleIssue_no_search se org repo issue :
  emits_only (fun e => negb (is_search e)) (handleIssue gc se org repo issue).
Proof.
  unfold handleIssue, removeLabel_logged, addLabel_logged, removeLabel, addLabel,
    getPullRequest, log_if_err, logf.
  cbv zeta. emits.
Qed.

Lemma forIssues_no_search se org repo issues :
  emits_only (fun e => negb (is_search e)) (forIssues gc se org repo issues).
Proof.
  induction issues as [|issue rest IH]; simpl.
  - apply emits_ret.
  - apply emits_bind; [apply handleIssue_no_search|intros _; exact IH].
Qed.

(** The retry loop always comes back: it cannot panic. *)
Lemma searchLoop_returns query n :
  forall issues w, exists r w1 t,
    searchLoop gc query n issues w = (Done r, w1, t).
Proof.
  induction n as [|n IH]; intros issues w; simpl.
  - unfold ret; eauto.
  - unfold bind, findIssues, call.
    destruct (FindIssues gc query "" false w) as [[found [e|]] w0].
    + unfold ret; eauto.
    + destruct (0 <? length found)%nat.
      * unfold ret; eauto.
      * destruct (IH found w0) as (r & w1 & t & E).
        unfold emit; rewrite E; eauto.
Qed.

(** When every attempt finds nothing, the loop makes all its attempts, each
    followed by the sleep of ten seconds, and leaves no issue. *)
Lemma searchLoop_always_empty query n :
  forall w, always_empty gc query n w ->
  exists w1,
    searchLoop gc query n [] w =
    (Done (inr []), w1, concat (repeat [CallFindIssues query "" false; Sleep 10] n)).
Proof.
  induction n as [|n IH]; intros w H; simpl.
  - unfold ret; eauto.
  - destruct H as [H0 Hn].
    unfold bind, findIssues, call.
    destruct (FindIssues gc query "" false w) as [[found err] w0].
    simpl in H0, Hn. injection H0 as -> ->. simpl.
    destruct (IH w0 Hn) as (w1 & E).
    unfold emit; rewrite E; simpl; eauto.
Qed.

(** The first attempt alone: with an error the loop returns it wrapped, with
    an issue found it breaks. *)
Lemma searchLoop_first query n issues w found err w0 :
  FindIssues gc query "" false w = ((found, err), w0) ->
  found <> [] \/ err <> None ->
  exists r,
    searchLoop gc query (S n) issues w = (Done r, w0, [CallFindIssues query "" false]) /\
    match err with
    | Some e => r = inl (ErrorfWrap "error searching for issues matching commit: " e)
    | None => r = inr found
    end.
Proof.
  intros E H. simpl. unfold bind, findIssues, call. rewrite E.
  destruct err as [e|].
  - unfold ret; eauto.
  - destruct found as [|i found]; [destruct H; congruence|].
    simpl. unfold ret; eauto.
Qed.

(** [handle] past its early returns, in terms of the run of the retry loop
    and of the loop over the issues. *)
Lemma handle_checked se w :
  passes_early_checks se ->
  let org := Login (Owner (SERepo se)) in
  let repo := Name (SERepo se) in
  handle gc se w =
  bind (logf Info None None "Searching for PRs matching the commit.")
    (fun _ =>
       bind (searchLoop gc (searchQuery (SHA se) org repo) maxRetries [])
         (fun r =>
            match r with
            | inl e => ret (Some e)
            | inr issues =>
                bind (logf Info None None
                        ("Found " ++ itoa (Z.of_nat (length issues))
                         ++ " PRs matching commit."))
                  (fun _ => bind (forIssues gc se org repo issues)
                              (fun _ => ret None))
            end)) w.
Proof.
  intros (Hs & Hc & Hp). unfold handle.
  apply String.eqb_neq in Hs, Hp. rewrite Hs, Hp, Hc. reflexivity.
Qed.

Lemma handle_searched se w r w1 t :
  passes_early_checks se ->
  searchLoop gc (searchQuery (SHA se) (Login (Owner (SERepo se))) (Name (SERepo se)))
    maxRetries [] w = (Done r, w1, t) ->
  handle gc se w =
  match r with
  | inl e =>
      (Done (Some e), w1,
       Log Info None None "Searching for PRs matching the commit." :: t)
  | inr issues =>
      let o := forIssues gc se (Login (Owner (SERepo se))) (Name (SERepo se)) issues w1 in
      (match result o with Done _ => Done None | Panic => Panic end,
       final o,
       (Log Info None None "Searching for PRs matching the commit." :: t ++
        Log Info None None
          ("Found " ++ itoa (Z.of_nat (length issues)) ++ " PRs matching commit.")
        :: trace o)%list)
  end.
Proof.
  intros Hc E. rewrite (handle_checked se w Hc).
  rewrite (bind_run _ _ _ _ _ _ (eq_refl : logf _ _ _ _ w = (Done tt, w, [_]))).
  rewrite (bind_run _ _ _ _ _ _ E).
  destruct r as [e|issues].
  - unfold ret. cbn [app]. rewrite app_nil_r. reflexivity.
  - cbv zeta. unfold bind, logf, emit, trace, result, final, ret.
    destruct (forIssues gc se _ _ issues w1) as [[[u|] w2] t2];
      cbn [app fst snd]; rewrite ?app_nil_r; reflexivity.
Qed.

Lemma forIssues_searches se org repo issues w :
  searches (trace (forIssues gc se org repo issues w)) = [].
Proof. apply filter_none, forIssues_no_search. Qed.

(** C6.  For a status event that passes the early checks: when every one of
    the [maxRetries] attempts finds no issue, [handle] makes exactly five
    searches and returns nil; when the first attempt finds at least one
    issue, [handle] makes exactly one search. *)
Theorem C6_search_retry_bound se w :
  passes_early_checks se ->
  let query := searchQuery (SHA se) (Login (Owner (SERepo se))) (Name (SERepo se)) in
  (always_empty gc query maxRetries w ->
   length (searches (trace (handle gc se w))) = 5%nat /\
   result (handle gc se w) = Done None) /\
  (fst (fst (FindIssues gc query "" false w)) <> [] ->
   length (searches (trace (handle gc se w))) = 1%nat).
Proof.
  intros Hc query. split.
  - intros H. destruct (searchLoop_always_empty query maxRetries w H) as (w1 & E).
    rewrite (handle_searched se w _ _ _ Hc E). split; reflexivity.
  - intros H.
    destruct (FindIssues gc query "" false w) as [[found err] w0] eqn:E0.
    simpl in H.
    destruct (searchLoop_first query 4 [] w found err w0 E0 (or_introl H))
      as (r & E & Hr).
    rewrite (handle_searched se w _ _ _ Hc E).
    destruct err as [e|]; subst r.
    + reflexivity.
    + cbv zeta. unfold trace at 1. cbn [snd app].
      unfold searches. cbn [filter is_search]. fold (searches).
      rewrite forIssues_searches. reflexivity.
Qed.

(** An error at attempt [k + 1], after [k] attempts that found nothing. *)
Lemma searchLoop_error_at query k :
  forall n issues w found e w0,
    always_empty gc query k w ->
    FindIssues gc query "" false (after_searches gc query k w) = ((found, Some e), w0) ->
    searchLoop gc query (k + S n) issues w =
    (Done (inl (ErrorfWrap "error searching for issues matching commit: " e)), w0,
     (concat (repeat [CallFindIssues query "" false; Sleep 10] k)
      ++ [CallFindIssues query "" false])%list).
Proof.
  induction k as [|k IH]; intros n issues w found e w0 H E.
  - simpl in E. simpl. unfold bind, findIssues, call. rewrite E. reflexivity.
  - destruct H as [H0 Hk]. simpl in E.
    change (S k + S n)%nat with (S (k + S n)). cbn [searchLoop].
    unfold bind at 1. unfold findIssues at 1, call at 1.
    destruct (FindIssues gc query "" false w) as [[f0 e0] w'].
    simpl in H0, Hk, E. injection H0 as -> ->.
    cbn [length Nat.ltb Nat.leb].
    unfold bind at 1, emit at 1.
    rewrite (IH n [] w' found e w0 Hk E). reflexivity.
Qed.

(** C5, as the code has it.  For a status event that passes the early
    checks, an error of the search at any attempt (the earlier ones having
    found nothing) ends [handle]: the error is returned to the caller,
    wrapped; no log entry tells of it; and the failed search is the last
    event: no search, fetch or label call follows. *)
Theorem C5_search_error_is_returned se w k found e w0 :
  passes_early_checks se ->
  let query := searchQuery (SHA se) (Login (Owner (SERepo se))) (Name (SERepo se)) in
  (k < maxRetries)%nat ->
  always_empty gc query k w ->
  FindIssues gc query "" false (after_searches gc query k w) = ((found, Some e), w0) ->
  handle gc se w =
  (Done (Some (ErrorfWrap "error searching for issues matching commit: " e)), w0,
   (Log Info None None "Searching for PRs matching the commit."
    :: concat (repeat [CallFindIssues query "" false; Sleep 10] k)
    ++ [CallFindIssues query "" false])%list).
Proof.
  intros Hc query Hk H E0.
  pose proof (searchLoop_error_at query k (maxRetries - S k) [] w found e w0 H E0) as E.
  replace (k + S (maxRetries - S k))%nat with maxRetries in E by lia.
  rewrite (handle_searched se w _ _ _ Hc E). reflexivity.
Qed.

(** *** One candidate *)

Lemma removeLabel_logged_run l org repo number label w :
  exists t,
    removeLabel_logged gc l org repo number label w =
    (Done tt, snd (RemoveLabel gc org repo number label w),
     CallRemoveLabel org repo number label :: t) /\
    mutations t = [] /\ calls t = [].
Proof.
  unfold removeLabel_logged, bind, removeLabel, call, log_if_err, logf, emit, ret.
  destruct (RemoveLabel gc org repo number label w) as [[e|] w1];
    eexists; repeat split.
Qed.

Lemma addLabel_logged_run l org repo number label w :
  exists t,
    addLabel_logged gc l org repo number label w =
    (Done tt, snd (AddLabel gc org repo number label w),
     CallAddLabel org repo number label :: t) /\
    mutations t = [] /\ calls t = [].
Proof.
  unfold addLabel_logged, bind, addLabel, call, log_if_err, logf, emit, ret.
  destruct (AddLabel gc org repo number label w) as [[e|] w1];
    eexists; repeat split.
Qed.

Lemma mutations_app t1 t2 : mutations (t1 ++ t2) = (mutations t1 ++ mutations t2)%list.
Proof. apply filter_app. Qed.

(** A candidate that already carries the label of the verdict is left
    alone: one log entry, no call. *)
Lemma handleIssue_up_to_date se org repo issue w :
  up_to_date se issue = true ->
  exists msg,
    handleIssue gc se org repo issue w =
    (Done tt, w, [Log Info (Some (IssueNumber issue)) None msg]).
Proof.
  unfold up_to_date, handleIssue, logf, emit. cbv zeta. intros H.
  destruct (HasLabel issue ClaYes && (State se =? StatusSuccess)%string).
  - eauto.
  - simpl in H. rewrite H. eauto.
Qed.

(** A candidate whose pull request comes back with another head commit than
    the one of the event: the fetch is the only call. *)
Lemma handleIssue_stale se org repo issue w pr err w1 :
  GetPullRequest gc org repo (IssueNumber issue) w = ((Some pr, err), w1) ->
  BranchSHA (Head pr) <> SHA se ->
  result (handleIssue gc se org repo issue w) = Done tt /\
  (calls (trace (handleIssue gc se org repo issue w)) = [] \/
   calls (trace (handleIssue gc se org repo issue w)) =
   [CallGetPullRequest org repo (IssueNumber issue)]).
Proof.
  intros E Hne. apply String.eqb_neq in Hne.
  unfold handleIssue. cbv zeta.
  destruct (HasLabel issue ClaYes && _); [split; [|left]; reflexivity|].
  destruct (HasLabel issue ClaNo && _); [split; [|left]; reflexivity|].
  unfold bind, logf, emit, getPullRequest, call, deref. rewrite E.
  destruct err as [e|]; [split; [|right]; reflexivity|].
  rewrite Hne. split; [|right]; reflexivity.
Qed.

(** Label changes are calls. *)
Lemma mutations_of_calls t : mutations t = mutations (calls t).
Proof.
  induction t as [|e t IH]; [reflexivity|].
  destruct e; simpl; rewrite ?IH; reflexivity.
Qed.

(** C8.  A candidate whose pull request, as fetched, has another head
    commit than the commit of the status event gets no label added and no
    label removed, whatever the state of the event and the labels of the
    candidate; the body of the loop ends normally, so the next candidate is
    looked at. *)
Theorem C8_staleness_guard se org repo issue w pr err w1 :
  GetPullRequest gc org repo (IssueNumber issue) w = ((Some pr, err), w1) ->
  BranchSHA (Head pr) <> SHA se ->
  mutations (trace (handleIssue gc se org repo issue w)) = [] /\
  result (handleIssue gc se org repo issue w) = Done tt.
Proof.
  intros E Hne.
  destruct (handleIssue_stale se org repo issue w pr err w1 E Hne) as [Hr [H|H]];
    rewrite mutations_of_calls, H; split; auto.
Qed.

(** When no candidate changes a label, the loop over the candidates and
    the handler change none. *)
Lemma forIssues_quiet se org repo issues :
  (forall issue w, mutations (trace (handleIssue gc se org repo issue w)) = []) ->
  forall w, mutations (trace (forIssues gc se org repo issues w)) = [].
Proof.
  intros H. induction issues as [|issue rest IH]; intros w; [reflexivity|].
  cbn [forIssues]. rewrite trace_bind.
  destruct (result (handleIssue gc se org repo issue w)); [|apply H].
  rewrite mutations_app, H, IH. reflexivity.
Qed.

Lemma searchLoop_no_mutation query n :
  forall issues,
    emits_only (fun e => negb (is_mutation e)) (searchLoop gc query n issues).
Proof.
  induction n as [|n IH]; intros issues.
  - apply emits_ret.
  - cbn [searchLoop]. unfold findIssues. emits. apply IH.
Qed.

Lemma searchLoop_quiet query n issues w :
  mutations (trace (searchLoop gc query n issues w)) = [].
Proof. apply filter_none, searchLoop_no_mutation. Qed.

Lemma handle_quiet se w :
  (forall issue w',
     mutations (trace (handleIssue gc se (Login (Owner (SERepo se)))
                         (Name (SERepo se)) issue w')) = []) ->
  mutations (trace (handle gc se w)) = [].
Proof.
  intros H. unfold handle.
  destruct (_ || _); [reflexivity|].
  destruct (negb _); [reflexivity|].
  destruct (State se =? StatusPending)%string; [reflexivity|].
  cbv zeta. rewrite trace_bind. cbn [result logf emit fst trace snd final].
  rewrite trace_bind.
  pose proof (searchLoop_quiet
                (searchQuery (SHA se) (Login (Owner (SERepo se))) (Name (SERepo se)))
                maxRetries [] w) as Hs.
  destruct (searchLoop_returns
              (searchQuery (SHA se) (Login (Owner (SERepo se))) (Name (SERepo se)))
              maxRetries [] w) as (r & w1 & t & E).
  rewrite E in *. cbn [result trace fst snd final] in *.
  rewrite !mutations_app, Hs. cbn [app mutations filter is_mutation].
  destruct r as [e|issues]; [reflexivity|].
  rewrite trace_bind. cbn [result logf emit fst trace snd final].
  rewrite trace_bind.
  pose proof (forIssues_quiet se _ _ issues H w1) as Hf.
  destruct (result (forIssues gc se _ _ issues w1));
    rewrite ?mutations_app, Hf; reflexivity.
Qed.

(** The staleness guard over the whole handler: against a client that never
    reports the commit of the event as the head of a pull request, [handle]
    changes no label. *)
Corollary handle_stale_everywhere se w :
  (forall org repo number w0 pr,
     fst (fst (GetPullRequest gc org repo number w0)) = Some pr ->
     BranchSHA (Head pr) <> SHA se) ->
  mutations (trace (handle gc se w)) = [].
Proof.
  intros H. apply handle_quiet. intros issue w'.
  destruct (GetPullRequest gc (Login (Owner (SERepo se))) (Name (SERepo se))
              (IssueNumber issue) w') as [[[pr|] err] w1] eqn:E.
  - assert (Hne : BranchSHA (Head pr) <> SHA se).
    { apply (H (Login (Owner (SERepo se))) (Name (SERepo se)) (IssueNumber issue) w').
      rewrite E. reflexivity. }
    destruct (handleIssue_stale se _ _ issue w' pr err w1 E Hne) as [_ [Hc|Hc]];
      rewrite mutations_of_calls, Hc; reflexivity.
  - unfold handleIssue. cbv zeta.
    destruct (HasLabel issue ClaYes && _); [reflexivity|].
    destruct (HasLabel issue ClaNo && _); [reflexivity|].
    unfold bind, logf, emit, getPullRequest, call, deref. rewrite E.
    destruct err; reflexivity.
Qed.

(** A candidate that does not carry the label of the verdict and whose pull
    request is fetched with the head commit of the event: the label changes
    made, in order. *)
Lemma handleIssue_fresh se org repo issue w pr w1 :
  up_to_date se issue = false ->
  GetPullRequest gc org repo (IssueNumber issue) w = ((Some pr, None), w1) ->
  BranchSHA (Head pr) = SHA se ->
  mutations (trace (handleIssue gc se org repo issue w)) =
  if (State se =? StatusSuccess)%string then
    ((if HasLabel issue ClaNo then [CallRemoveLabel org repo (PRNumber pr) ClaNo] else [])
     ++ [CallAddLabel org repo (PRNumber pr) ClaYes])%list
  else
    ((if HasLabel issue ClaYes then [CallRemoveLabel org repo (PRNumber pr) ClaYes] else [])
     ++ [CallAddLabel org repo (PRNumber pr) ClaNo])%list.
Proof.
  unfold up_to_date. intros Hu E Hh.
  apply orb_false_iff in Hu. destruct Hu as [Hu1 Hu2].
  unfold handleIssue. cbv zeta. rewrite Hu1, Hu2.
  rewrite (bind_run _ _ _ _ _ _ (eq_refl : logf _ _ _ _ w = (Done tt, w, [_]))).
  unfold trace at 1. cbn [snd].
  assert (Eg : getPullRequest gc org repo (IssueNumber issue) w =
               (Done (Some pr, None), w1,
                [CallGetPullRequest org repo (IssueNumber issue)])).
  { unfold getPullRequest, call. rewrite E. reflexivity. }
  rewrite (bind_run _ _ _ _ _ _ Eg). unfold trace at 1. cbn [snd].
  rewrite (bind_run _ _ _ _ _ _
             (eq_refl : deref (Some pr) (fun p => BranchSHA (Head p)) w1 = (Done _, w1, []))).
  unfold trace at 1. cbn [snd].
  rewrite Hh, String.eqb_refl. cbn [negb].
  rewrite (bind_run _ _ _ _ _ _
             (eq_refl : deref (Some pr) PRNumber w1 = (Done _, w1, []))).
  unfold trace at 1. cbn [snd app mutations filter is_mutation].
  fold mutations.
  destruct (State se =? StatusSuccess)%string.
  - destruct (HasLabel issue ClaNo).
    + destruct (removeLabel_logged_run (Some (IssueNumber issue)) org repo
                  (PRNumber pr) ClaNo w1) as (t1 & E1 & M1 & _).
      rewrite (bind_run _ _ _ _ _ _ E1).
      destruct (addLabel_logged_run (Some (IssueNumber issue)) org repo
                  (PRNumber pr) ClaYes (snd (RemoveLabel gc org repo (PRNumber pr) ClaNo w1)))
        as (t2 & E2 & M2 & _).
      rewrite E2. unfold trace. cbn [snd].
      change (?x :: t1) with ([x] ++ t1)%list.
      change (?x :: t2) with ([x] ++ t2)%list.
      rewrite !mutations_app, M1, M2. reflexivity.
    + rewrite (bind_run _ _ _ _ _ _ (eq_refl : ret tt w1 = (Done tt, w1, []))).
      destruct (addLabel_logged_run (Some (IssueNumber issue)) org repo
                  (PRNumber pr) ClaYes w1) as (t2 & E2 & M2 & _).
      rewrite E2. unfold trace. cbn [snd app].
      change (?x :: t2) with ([x] ++ t2)%list.
      rewrite !mutations_app, M2. reflexivity.
  - destruct (HasLabel issue ClaYes).
    + destruct (removeLabel_logged_run (Some (IssueNumber issue)) org repo
                  (PRNumber pr) ClaYes w1) as (t1 & E1 & M1 & _).
      rewrite (bind_run _ _ _ _ _ _ E1).
      destruct (addLabel_logged_run (Some (IssueNumber issue)) org repo
                  (PRNumber pr) ClaNo (snd (RemoveLabel gc org repo (PRNumber pr) ClaYes w1)))
        as (t2 & E2 & M2 & _).
      rewrite E2. unfold trace. cbn [snd].
      change (?x :: t1) with ([x] ++ t1)%list.
      change (?x :: t2) with ([x] ++ t2)%list.
      rewrite !mutations_app, M1, M2. reflexivity.
    + rewrite (bind_run _ _ _ _ _ _ (eq_refl : ret tt w1 = (Done tt, w1, []))).
      destruct (addLabel_logged_run (Some (IssueNumber issue)) org repo
                  (PRNumber pr) ClaNo w1) as (t2 & E2 & M2 & _).
      rewrite E2. unfold trace. cbn [snd app].
      change (?x :: t2) with ([x] ++ t2)%list.
      rewrite !mutations_app, M2. reflexivity.
Qed.

End StatusPath.

(** ** The comment path *)

Section CommentPath.
Context {imports : Imports} {W : Type}.
Variable gc : gitHubClient W.

(** The flags after the loop over the labels. *)
Lemma scanLabels_named ls :
  forall y n,
    scanLabels ls y n = (y || named ClaYes ls, n || named ClaNo ls).
Proof.
  induction ls as [|l ls IH]; intros y n; simpl.
  - rewrite !orb_false_r. reflexivity.
  - rewrite IH.
    destruct (LabelName l =? ClaYes)%string, (LabelName l =? ClaNo)%string;
      simpl; rewrite ?orb_true_r; reflexivity.
Qed.

Lemma maybe_remove_run (b : bool) l org repo number label w :
  exists w1 t,
    (if b then removeLabel_logged gc l org repo number label else ret tt) w =
    (Done tt, w1, t) /\
    mutations t = if b then [CallRemoveLabel org repo number label] else [].
Proof.
  destruct b.
  - destruct (removeLabel_logged_run gc l org repo number label w) as (t & E & Mt & _).
    exists (snd (RemoveLabel gc org repo number label w)), (CallRemoveLabel org repo number label :: t).
    split; [exact E|]. change (?x :: t) with ([x] ++ t)%list.
    rewrite mutations_app, Mt. reflexivity.
  - exists w, []. split; reflexivity.
Qed.

Lemma maybe_add_run (b : bool) l org repo number label w :
  exists w1 t,
    (if b then addLabel_logged gc l org repo number label else ret tt) w =
    (Done tt, w1, t) /\
    mutations t = if b then [CallAddLabel org repo number label] else [].
Proof.
  destruct b.
  - destruct (addLabel_logged_run gc l org repo number label w) as (t & E & Mt & _).
    exists (snd (AddLabel gc org repo number label w)), (CallAddLabel org repo number label :: t).
    split; [exact E|]. change (?x :: t) with ([x] ++ t)%list.
    rewrite mutations_app, Mt. reflexivity.
  - exists w, []. split; reflexivity.
Qed.

(** The entry of the CLA context: the handler goes on, and the label changes
    are those of [comment_changes]. *)
Lemma onClaStatus_run org repo number y n status w :
  exists w1 t,
    onClaStatus gc org repo number y n status w = (Done tt, w1, t) /\
    mutations t = comment_changes org repo number y n (StState status).
Proof.
  unfold onClaStatus, comment_changes.
  destruct (StState status =? StatusSuccess)%string.
  - destruct (maybe_remove_run n None org repo number ClaNo w) as (w1 & t1 & E1 & M1).
    destruct (maybe_add_run (negb y) None org repo number ClaYes w1)
      as (w2 & t2 & E2 & M2).
    exists w2, (t1 ++ t2)%list.
    rewrite (bind_run _ _ _ _ _ _ E1), E2, mutations_app, M1, M2.
    split; [reflexivity|]. destruct y; reflexivity.
  - destruct (StState status =? StatusFailure)%string.
    + destruct (maybe_remove_run y None org repo number ClaYes w) as (w1 & t1 & E1 & M1).
      destruct (maybe_add_run (negb n) None org repo number ClaNo w1)
        as (w2 & t2 & E2 & M2).
      exists w2, (t1 ++ t2)%list.
      rewrite (bind_run _ _ _ _ _ _ E1), E2, mutations_app, M1, M2.
      split; [reflexivity|]. destruct n; reflexivity.
    + exists w, []. split; reflexivity.
Qed.

(** The loop over the statuses acts on the first entry of the CLA context
    and on no other. *)
Lemma scanStatuses_run org repo number y n statuses w :
  exists w1 t,
    scanStatuses gc org repo number y n statuses w = (Done tt, w1, t) /\
    mutations t =
    match find (fun s => (StContext s =? claContextName)%string) statuses with
    | Some status => comment_changes org repo number y n (StState status)
    | None => []
    end.
Proof.
  induction statuses as [|s rest IH]; cbn [scanStatuses find].
  - exists w, []. split; reflexivity.
  - destruct (StContext s =? claContextName)%string.
    + apply onClaStatus_run.
    + exact IH.
Qed.

Lemma log_if_err_run lvl pr err msg (w : W) :
  exists t, log_if_err lvl pr err msg w = (Done tt, w, t) /\ mutations t = [].
Proof. destruct err; eexists; split; reflexivity. Qed.

(** The label changes of a run of the comment path in which the three
    fetches bring back labels, a pull request and a combined status. *)
Lemma handleComment_mutations e w ls cs :
  triggers e ->
  comment_reads gc e w ls cs ->
  result (handleComment gc e w) = Done None /\
  mutations (trace (handleComment gc e w)) =
  match claEntry cs with
  | Some status =>
      comment_changes (Login (Owner (CERepo e))) (Name (CERepo e)) (Number e)
        (named ClaYes ls) (named ClaNo ls) (StState status)
  | None => []
  end.
Proof.
  intros (Ho & Ha & Hb) (lerr & w1 & pr & perr & w2 & cerr & w3 & E1 & E2 & E3).
  unfold handleComment. rewrite Ho, Ha, Hb, !String.eqb_refl. cbn [negb orb].
  assert (G1 : getIssueLabels gc (Login (Owner (CERepo e))) (Name (CERepo e))
                 (Number e) w =
               (Done (ls, lerr), w1,
                [CallGetIssueLabels (Login (Owner (CERepo e))) (Name (CERepo e)) (Number e)])).
  { unfold getIssueLabels, call. rewrite E1. reflexivity. }
  rewrite (bind_run _ _ _ _ _ _ G1).
  match goal with |- context [log_if_err ?a ?b ?c ?d] =>
    destruct (log_if_err_run a b c d w1) as (l1 & L1 & ML1) end.
  rewrite (bind_run _ _ _ _ _ _ L1).
  rewrite scanLabels_named. cbn [orb].
  assert (G2 : getPullRequest gc (Login (Owner (CERepo e))) (Name (CERepo e))
                 (Number e) w1 =
               (Done (Some pr, perr), w2,
                [CallGetPullRequest (Login (Owner (CERepo e))) (Name (CERepo e)) (Number e)])).
  { unfold getPullRequest, call. rewrite E2. reflexivity. }
  rewrite (bind_run _ _ _ _ _ _ G2).
  match goal with |- context [log_if_err ?a ?b perr ?d] =>
    destruct (log_if_err_run a b perr d w2) as (l2 & L2 & ML2) end.
  rewrite (bind_run _ _ _ _ _ _ L2).
  rewrite (bind_run _ _ _ _ _ _
             (eq_refl : deref (Some pr) (fun p => BranchSHA (Head p)) w2 = (Done _, w2, []))).
  assert (G3 : getCombinedStatus gc (Login (Owner (CERepo e))) (Name (CERepo e))
                 (BranchSHA (Head pr)) w2 =
               (Done (Some cs, cerr), w3,
                [CallGetCombinedStatus (Login (Owner (CERepo e))) (Name (CERepo e))
                   (BranchSHA (Head pr))])).
  { unfold getCombinedStatus, call. rewrite E3. reflexivity. }
  rewrite (bind_run _ _ _ _ _ _ G3).
  match goal with |- context [log_if_err ?a ?b cerr ?d] =>
    destruct (log_if_err_run a b cerr d w3) as (l3 & L3 & ML3) end.
  rewrite (bind_run _ _ _ _ _ _ L3).
  rewrite (bind_run _ _ _ _ _ _
             (eq_refl : deref (Some cs) Statuses w3 = (Done _, w3, []))).
  destruct (scanStatuses_run (Login (Owner (CERepo e))) (Name (CERepo e)) (Number e)
              (named ClaYes ls) (named ClaNo ls) (Statuses cs) w3)
    as (w4 & t4 & E4 & M4).
  rewrite (bind_run _ _ _ _ _ _ E4).
  unfold ret, result, trace, claEntry. cbn [fst snd].
  rewrite !mutations_app, ML1, ML2, ML3, M4, app_nil_r. cbn [app mutations filter is_mutation].
  split; reflexivity.
Qed.

(** A comment event either gets past the early returns or ends there with
    no event at all. *)
Lemma handleComment_cases e w :
  triggers e \/ handleComment gc e w = (Done None, w, []).
Proof.
  unfold triggers, handleComment.
  destruct (String.eqb_spec (IssueState e) "open") as [Ho|Ho]; [|right; reflexivity].
  destruct (String.eqb_spec (Action e) GenericCommentActionCreated) as [Ha|Ha];
    [|right; reflexivity].
  destruct (checkCLARe_MatchString (Body e)); [left; auto|right; reflexivity].
Qed.

(** The early returns of the comment path.  Unless the issue is open (be
    it a pull request or not: line 177 does not ask), the comment was just
    created and the body holds the command [/check-cla] on a line of its own
    (case ignored, blanks around it allowed), [handleComment] returns nil,
    calls nothing and leaves the client as it was. *)
Lemma comment_preconditions e w :
  IssueState e <> "open" \/ Action e <> GenericCommentActionCreated \/
  ~ command_on_own_line (Body e) ->
  handleComment gc e w = (Done None, w, []).
Proof.
  intros H. destruct (handleComment_cases e w) as [(Ho & Ha & Hb)|E]; [|exact E].
  destruct H as [H|[H|H]]; [contradiction|contradiction|].
  exfalso. apply H, checkCLARe_sound, Hb.
Qed.

(** A nil pull request, whether or not an error comes with it: the read of
    the head commit on line 212 panics, after the two fetches. *)
Lemma handleComment_nil_pull_request e w ls lerr w1 perr w2 :
  triggers e ->
  GetIssueLabels gc (Login (Owner (CERepo e))) (Name (CERepo e)) (Number e) w =
    ((ls, lerr), w1) ->
  GetPullRequest gc (Login (Owner (CERepo e))) (Name (CERepo e)) (Number e) w1 =
    ((None, perr), w2) ->
  result (handleComment gc e w) = Panic /\
  calls (trace (handleComment gc e w)) =
  [CallGetIssueLabels (Login (Owner (CERepo e))) (Name (CERepo e)) (Number e);
   CallGetPullRequest (Login (Owner (CERepo e))) (Name (CERepo e)) (Number e)].
Proof.
  intros (Ho & Ha & Hb) E1 E2.
  unfold handleComment. rewrite Ho, Ha, Hb, !String.eqb_refl. cbn [negb orb].
  unfold bind, getIssueLabels, getPullRequest, call, deref, log_if_err, logf, emit, ret.
  rewrite E1.
  destruct (scanLabels ls false false) as [y n].
  destruct lerr; rewrite E2; destruct perr; split; reflexivity.
Qed.

(** A nil combined status: the read of its entries on line 218 panics. *)
Lemma handleComment_nil_combined_status e w ls lerr w1 pr perr w2 cerr w3 :
  triggers e ->
  GetIssueLabels gc (Login (Owner (CERepo e))) (Name (CERepo e)) (Number e) w =
    ((ls, lerr), w1) ->
  GetPullRequest gc (Login (Owner (CERepo e))) (Name (CERepo e)) (Number e) w1 =
    ((Some pr, perr), w2) ->
  GetCombinedStatus gc (Login (Owner (CERepo e))) (Name (CERepo e))
    (BranchSHA (Head pr)) w2 = ((None, cerr), w3) ->
  result (handleComment gc e w) = Panic /\
  mutations (trace (handleComment gc e w)) = [].
Proof.
  intros (Ho & Ha & Hb) E1 E2 E3.
  unfold handleComment. rewrite Ho, Ha, Hb, !String.eqb_refl. cbn [negb orb].
  unfold bind, getIssueLabels, getPullRequest, getCombinedStatus, call, deref,
    log_if_err, logf, emit, ret.
  rewrite E1.
  destruct (scanLabels ls false false) as [y n].
  destruct lerr; rewrite E2; destruct perr; rewrite E3; destruct cerr;
    split; reflexivity.
Qed.

End CommentPath.

(** ** Both paths *)

Section BothPaths.
Context {imports : Imports} {W : Type}.
Variable gc : gitHubClient W.

Lemma in_mutations e t : In e (mutations t) -> In e t.
Proof. unfold mutations. rewrite filter_In. tauto. Qed.

(** When the opposite label goes.  In the comment path a success entry
    removes the negative label whenever it is there and a failure entry
    removes the positive label whenever it is there, the other label being
    there or not.  In the status path, for a candidate fetched with the head
    commit of the event, a success verdict removes the negative label and a
    failure or error verdict removes the positive label when the label of the
    verdict is not there; a candidate that carries the label of the verdict,
    with or without the opposite one, is skipped without any call. *)
Lemma opposite_label_removal :
  StatusSuccess <> StatusFailure -> StatusSuccess <> StatusError ->
  (forall e w ls cs status,
      triggers e -> comment_reads gc e w ls cs -> claEntry cs = Some status ->
      (StState status = StatusSuccess -> named ClaNo ls = true ->
       In (CallRemoveLabel (Login (Owner (CERepo e))) (Name (CERepo e)) (Number e) ClaNo)
          (trace (handleComment gc e w))) /\
      (StState status = StatusFailure -> named ClaYes ls = true ->
       In (CallRemoveLabel (Login (Owner (CERepo e))) (Name (CERepo e)) (Number e) ClaYes)
          (trace (handleComment gc e w)))) /\
  (forall se org repo issue w pr w1,
      GetPullRequest gc org repo (IssueNumber issue) w = ((Some pr, None), w1) ->
      BranchSHA (Head pr) = SHA se ->
      (State se = StatusSuccess ->
       HasLabel issue ClaYes = false -> HasLabel issue ClaNo = true ->
       In (CallRemoveLabel org repo (PRNumber pr) ClaNo)
          (trace (handleIssue gc se org repo issue w))) /\
      (State se = StatusFailure \/ State se = StatusError ->
       HasLabel issue ClaNo = false -> HasLabel issue ClaYes = true ->
       In (CallRemoveLabel org repo (PRNumber pr) ClaYes)
          (trace (handleIssue gc se org repo issue w)))) /\
  (forall se org repo issue w,
      (State se = StatusSuccess /\ HasLabel issue ClaYes = true) \/
      ((State se = StatusFailure \/ State se = StatusError) /\
       HasLabel issue ClaNo = true) ->
      calls (trace (handleIssue gc se org repo issue w)) = []).
Proof.
  intros Hsf Hse. split; [|split].
  - intros e w ls cs status Ht Hr Hc.
    destruct (handleComment_mutations gc e w ls cs Ht Hr) as [_ Hm].
    rewrite Hc in Hm. unfold comment_changes in Hm. split.
    + intros Hs Hn. apply in_mutations. rewrite Hm, Hs, String.eqb_refl, Hn.
      left; reflexivity.
    + intros Hs Hy. apply in_mutations. rewrite Hm, Hs, String.eqb_refl, Hy.
      apply not_eq_sym, String.eqb_neq in Hsf. rewrite Hsf.
      left; reflexivity.
  - intros se org repo issue w pr w1 E Hh. split.
    + intros Hs Hy Hn. apply in_mutations.
      rewrite (handleIssue_fresh gc se org repo issue w pr w1); trivial.
      * rewrite Hs, String.eqb_refl, Hn. left; reflexivity.
      * unfold up_to_date. rewrite Hy, Hn, Hs.
        apply String.eqb_neq in Hsf, Hse. rewrite Hsf, Hse. reflexivity.
    + intros Hs Hn Hy. apply in_mutations.
      assert (Hne : (State se =? StatusSuccess)%string = false).
      { apply String.eqb_neq. destruct Hs as [-> | ->]; auto. }
      rewrite (handleIssue_fresh gc se org repo issue w pr w1); trivial.
      * rewrite Hne, Hy. left; reflexivity.
      * unfold up_to_date. rewrite Hy, Hn, Hne. reflexivity.
  - intros se org repo issue w H.
    destruct (handleIssue_up_to_date gc se org repo issue w) as (msg & E).
    + unfold up_to_date.
      destruct H as [[-> ->]|[Hs ->]].
      * rewrite String.eqb_refl. reflexivity.
      * destruct Hs as [-> | ->];
          rewrite String.eqb_refl, ?orb_true_r; cbn [andb orb];
          rewrite ?orb_true_r; reflexivity.
    + rewrite E. reflexivity.
Qed.

(** C9, as the code has it.  A status event of pending state makes
    [handle] return with no event at all: nil when the context is not empty,
    the error of an invalid event when it is.  A pending entry of the CLA
    context in the combined status makes [handleComment] add and remove no
    label. *)
Theorem C9_pending_no_mutation :
  StatusPending <> "" -> StatusPending <> StatusSuccess ->
  StatusPending <> StatusFailure ->
  (forall se w,
      State se = StatusPending ->
      trace (handle gc se w) = [] /\ final (handle gc se w) = w /\
      (Context se <> "" -> result (handle gc se w) = Done None) /\
      (Context se = "" ->
       result (handle gc se w) =
       Done (Some (Errorf "invalid status event delivered with empty state/context")))) /\
  (forall e w ls cs status,
      comment_reads gc e w ls cs -> claEntry cs = Some status ->
      StState status = StatusPending ->
      mutations (trace (handleComment gc e w)) = []).
Proof.
  intros Hpe Hps Hpf. split.
  - intros se w Hs. unfold handle. rewrite Hs, String.eqb_refl.
    apply String.eqb_neq in Hpe. rewrite Hpe. cbn [orb].
    destruct (String.eqb_spec (Context se) "") as [Hc|Hc].
    + repeat split; try reflexivity. intros H; contradiction.
    + destruct (negb _); repeat split; try reflexivity; intros H; contradiction.
  - intros e w ls cs status Hr Hc Hs.
    destruct (handleComment_cases gc e w) as [Ht|E]; [|rewrite E; reflexivity].
    destruct (handleComment_mutations gc e w ls cs Ht Hr) as [_ Hm].
    rewrite Hm, Hc. unfold comment_changes. rewrite Hs.
    apply String.eqb_neq in Hps, Hpf. rewrite Hps, Hpf. reflexivity.
Qed.

(** C10.  When the verdict is success and only the positive label is
    there, or the verdict is failure or error and only the negative label is
    there, no label is added and none is removed: for a candidate of the
    status path, and for a run of the comment path. *)
Theorem C10_idempotence :
  StatusSuccess <> StatusFailure -> StatusSuccess <> StatusError ->
  (forall se org repo issue w,
      (State se = StatusSuccess /\
       HasLabel issue ClaYes = true /\ HasLabel issue ClaNo = false) \/
      ((State se = StatusFailure \/ State se = StatusError) /\
       HasLabel issue ClaNo = true /\ HasLabel issue ClaYes = false) ->
      mutations (trace (handleIssue gc se org repo issue w)) = []) /\
  (forall e w ls cs status,
      comment_reads gc e w ls cs -> claEntry cs = Some status ->
      (StState status = StatusSuccess /\
       named ClaYes ls = true /\ named ClaNo ls = false) \/
      ((StState status = StatusFailure \/ StState status = StatusError) /\
       named ClaNo ls = true /\ named ClaYes ls = false) ->
      mutations (trace (handleComment gc e w)) = []).
Proof.
  intros Hsf Hse. split.
  - intros se org repo issue w H.
    destruct (handleIssue_up_to_date gc se org repo issue w) as (msg & E).
    + unfold up_to_date.
      destruct H as [(-> & -> & _)|(Hs & -> & _)].
      * rewrite String.eqb_refl. reflexivity.
      * destruct Hs as [-> | ->];
          rewrite String.eqb_refl, ?orb_true_r; cbn [andb orb];
          rewrite ?orb_true_r; reflexivity.
    + rewrite E. reflexivity.
  - intros e w ls cs status Hr Hc H.
    destruct (handleComment_cases gc e w) as [Ht|E]; [|rewrite E; reflexivity].
    destruct (handleComment_mutations gc e w ls cs Ht Hr) as [_ Hm].
    rewrite Hm, Hc. unfold comment_changes.
    apply not_eq_sym, String.eqb_neq in Hsf, Hse.
    destruct H as [(-> & -> & ->)|(Hs & -> & ->)].
    + rewrite String.eqb_refl. reflexivity.
    + destruct Hs as [-> | ->]; rewrite ?Hsf, ?Hse, ?String.eqb_refl.
      * reflexivity.
      * destruct (StatusError =? StatusFailure)%string; reflexivity.
Qed.

End BothPaths.

(** ** The handlers at work

    Runs against the scripted client, with the declarations of prow. *)

(** C1: the opposite label is not always removed.  In the status path,
    issue 3 carries both labels, the event says success for the head commit
    of its pull request, and [handle] stops at the first guard of the loop:
    the negative label is not removed, and no call but the search is made.
    In the comment path, an error entry leaves both labels of the pull
    request where they are. *)
Theorem C1_opposite_label_stays :
  HasLabel (Imports := prow) (issue3 ["cncf-cla: yes"; "cncf-cla: no"]) "cncf-cla: yes" = true /\
  HasLabel (Imports := prow) (issue3 ["cncf-cla: yes"; "cncf-cla: no"]) "cncf-cla: no" = true /\
  handle (imports := prow)
    (scripted (found ["cncf-cla: yes"; "cncf-cla: no"] "abc")) (claStatus "success") tt =
  (Done None, tt,
   [Log Info None None "Searching for PRs matching the commit.";
    CallFindIssues "abc repo:kubernetes/test-infra type:pr state:open" "" false;
    Log Info None None "Found 1 PRs matching commit.";
    Log Info (Some 3) None "PR has up-to-date cncf-cla: yes label."]) /\
  handleComment (imports := prow)
    (scripted (commented ["cncf-cla: yes"; "cncf-cla: no"] [("EasyCLA", "error")]))
    checkCla tt =
  (Done None, tt,
   [CallGetIssueLabels "kubernetes" "test-infra" 3;
    CallGetPullRequest "kubernetes" "test-infra" 3;
    CallGetCombinedStatus "kubernetes" "test-infra" "abc"]).
Proof. repeat split. Qed.

(** C2: the fetch of the labels fails, the failure is logged, and the
    handler goes on: with the flags of an unlabelled pull request it adds the
    positive label. *)
Theorem C2_labels_failure_goes_on :
  handleComment (imports := prow) (scripted labelsFail) checkCla tt =
  (Done None, tt,
   [CallGetIssueLabels "kubernetes" "test-infra" 3;
    Log Error None (Some (ClientError "labels unavailable"))
      "Failed to get the labels on kubernetes/test-infra#3.";
    CallGetPullRequest "kubernetes" "test-infra" 3;
    CallGetCombinedStatus "kubernetes" "test-infra" "abc";
    CallAddLabel "kubernetes" "test-infra" 3 "cncf-cla: yes"]).
Proof. reflexivity. Qed.

(** C3: an error entry of the CLA context changes no label of a pull
    request that carries the positive label, where a failure entry removes
    it and adds the negative one. *)
Theorem C3_error_entry_changes_nothing :
  mutations (trace (handleComment (imports := prow)
                      (scripted (commented ["cncf-cla: yes"] [("EasyCLA", "error")]))
                      checkCla tt)) = [] /\
  mutations (trace (handleComment (imports := prow)
                      (scripted (commented ["cncf-cla: yes"] [("EasyCLA", "failure")]))
                      checkCla tt)) =
  [CallRemoveLabel "kubernetes" "test-infra" 3 "cncf-cla: yes";
   CallAddLabel "kubernetes" "test-infra" 3 "cncf-cla: no"].
Proof. split; reflexivity. Qed.

(** C4: when the pull request cannot be fetched the handler logs the
    error and then reads the head commit through the nil pointer; when the
    combined status cannot be fetched it logs and then reads the entries
    through the nil pointer.  Both runs end in a panic. *)
Theorem C4_nil_dereference :
  handleComment (imports := prow) (scripted pullRequestFails) checkCla tt =
  (Panic, tt,
   [CallGetIssueLabels "kubernetes" "test-infra" 3;
    CallGetPullRequest "kubernetes" "test-infra" 3;
    Log Error None (Some (ClientError "pull request unavailable"))
      "Unable to fetch PR-3 from kubernetes/test-infra."]) /\
  handleComment (imports := prow) (scripted statusFails) checkCla tt =
  (Panic, tt,
   [CallGetIssueLabels "kubernetes" "test-infra" 3;
    CallGetPullRequest "kubernetes" "test-infra" 3;
    CallGetCombinedStatus "kubernetes" "test-infra" "abc";
    Log Error None (Some (ClientError "statuses unavailable"))
      "Failed to get statuses on kubernetes/test-infra#3"]).
Proof. split; reflexivity. Qed.

(** C7: the comment [/check-cla], newly created on an open issue that is
    no pull request, gets past the checks of lines 177-183, which look at
    the state of the issue, the action and the body only: the handler makes
    its calls.  Where the client knows no pull request of that number the run
    ends in the panic of line 212 after two calls; where the client answers
    for that number the run goes as far as a label call. *)
Theorem C7_issue_comment_is_handled :
  IsPR checkClaOnIssue = false /\
  handleComment (imports := prow) (scripted pullRequestFails) checkClaOnIssue tt =
  (Panic, tt,
   [CallGetIssueLabels "kubernetes" "test-infra" 3;
    CallGetPullRequest "kubernetes" "test-infra" 3;
    Log Error None (Some (ClientError "pull request unavailable"))
      "Unable to fetch PR-3 from kubernetes/test-infra."]) /\
  handleComment (imports := prow)
    (scripted (commented [] [("EasyCLA", "success")])) checkClaOnIssue tt =
  (Done None, tt,
   [CallGetIssueLabels "kubernetes" "test-infra" 3;
    CallGetPullRequest "kubernetes" "test-infra" 3;
    CallGetCombinedStatus "kubernetes" "test-infra" "abc";
    CallAddLabel "kubernetes" "test-infra" 3 "cncf-cla: yes"]).
Proof. repeat split. Qed.

(** C5 does not hold: the search fails and [handle] returns the error to
    its caller, wrapped, without a log entry about it. *)
Lemma C5_counterexample :
  handle (imports := prow) (scripted searchFails) (claStatus "success") tt =
  (Done (Some (ErrorfWrap "error searching for issues matching commit: "
                 (ClientError "search failed"))), tt,
   [Log Info None None "Searching for PRs matching the commit.";
    CallFindIssues "abc repo:kubernetes/test-infra type:pr state:open" "" false]).
Proof. reflexivity. Qed.

(** C9 does not hold of every pending event: with an empty context [handle]
    returns an error, not nil. *)
Lemma C9_counterexample :
  State (statusEvent "pending" "" "abc") = StatusPending (Imports := prow) /\
  handle (imports := prow) (scripted nothingFound) (statusEvent "pending" "" "abc") tt =
  (Done (Some (Errorf "invalid status event delivered with empty state/context")), tt, []).
Proof. split; reflexivity. Qed.

(** The theorems above at work on the scripted client. *)

Lemma prow_early_checks state :
  state <> "" -> state <> "pending" ->
  passes_early_checks (imports := prow) (claStatus state).
Proof. intros H1 H2. repeat split; assumption. Defined.

Example opposite_label_removal_runs :
  In (CallRemoveLabel "kubernetes" "test-infra" 3 "cncf-cla: no")
     (trace (handleComment (imports := prow)
               (scripted (commented ["cncf-cla: yes"; "cncf-cla: no"] [("EasyCLA", "success")]))
               checkCla tt)) /\
  In (CallRemoveLabel "kubernetes" "test-infra" 3 "cncf-cla: yes")
     (trace (handleIssue (imports := prow) (scripted (found ["cncf-cla: yes"] "abc"))
               (claStatus "error") "kubernetes" "test-infra" (issue3 ["cncf-cla: yes"]) tt)) /\
  calls (trace (handleIssue (imports := prow)
                  (scripted (found ["cncf-cla: yes"; "cncf-cla: no"] "abc"))
                  (claStatus "success") "kubernetes" "test-infra"
                  (issue3 ["cncf-cla: yes"; "cncf-cla: no"]) tt)) = [].
Proof.
  split; [|split].
  - refine (proj1 (proj1 (opposite_label_removal (imports := prow)
                            (scripted (commented ["cncf-cla: yes"; "cncf-cla: no"]
                                         [("EasyCLA", "success")])) _ _)
                     checkCla tt (map lbl ["cncf-cla: yes"; "cncf-cla: no"])
                     (combined [("EasyCLA", "success")])
                     {| StContext := "EasyCLA"; StState := "success" |} _ _ _) _ _);
      try discriminate; try reflexivity.
    + repeat split.
    + exists None, tt, (pr3 "abc"), None, tt, None, tt. repeat split.
  - refine (proj2 (proj1 (proj2 (opposite_label_removal (imports := prow)
                                   (scripted (found ["cncf-cla: yes"] "abc")) _ _))
                     (claStatus "error") "kubernetes" "test-infra"
                     (issue3 ["cncf-cla: yes"]) tt (pr3 "abc") tt _ _) _ _ _);
      try discriminate; try reflexivity.
    right; reflexivity.
  - refine (proj2 (proj2 (opposite_label_removal (imports := prow)
                            (scripted (found ["cncf-cla: yes"; "cncf-cla: no"] "abc")) _ _))
              (claStatus "success") "kubernetes" "test-infra"
              (issue3 ["cncf-cla: yes"; "cncf-cla: no"]) tt _);
      try discriminate.
    left; split; reflexivity.
Defined.

Lemma C5_witness :
  handle (imports := prow) (scripted searchFails) (claStatus "failure") tt =
  (Done (Some (ErrorfWrap "error searching for issues matching commit: "
                 (ClientError "search failed"))), tt,
   [Log Info None None "Searching for PRs matching the commit.";
    CallFindIssues "abc repo:kubernetes/test-infra type:pr state:open" "" false]).
Proof.
  refine (C5_search_error_is_returned (imports := prow) (scripted searchFails)
            (claStatus "failure") tt 0 [] (ClientError "search failed") tt _ _ _ _).
  - apply prow_early_checks; discriminate.
  - unfold maxRetries; lia.
  - exact I.
  - reflexivity.
Defined.

Lemma C6_witness :
  (length (searches (trace (handle (imports := prow) (scripted nothingFound)
                              (claStatus "success") tt))) = 5%nat /\
   result (handle (imports := prow) (scripted nothingFound) (claStatus "success") tt) =
   Done None) /\
  length (searches (trace (handle (imports := prow) (scripted (found ["cncf-cla: no"] "abc"))
                             (claStatus "success") tt))) = 1%nat.
Proof.
  split.
  - refine (proj1 (C6_search_retry_bound (imports := prow) (scripted nothingFound)
                     (claStatus "success") tt _) _).
    + apply prow_early_checks; discriminate.
    + repeat split.
  - refine (proj2 (C6_search_retry_bound (imports := prow)
                     (scripted (found ["cncf-cla: no"] "abc"))
                     (claStatus "success") tt _) _).
    + apply prow_early_checks; discriminate.
    + discriminate.
Defined.

Example comment_preconditions_runs :
  handleComment (imports := prow) (scripted (commented [] [("EasyCLA", "success")]))
    (commentEvent "closed" "created" "/check-cla") tt = (Done None, tt, []) /\
  handleComment (imports := prow) (scripted (commented [] [("EasyCLA", "success")]))
    (commentEvent "open" "edited" "/check-cla") tt = (Done None, tt, []) /\
  handleComment (imports := prow) (scripted (commented [] [("EasyCLA", "success")]))
    (commentEvent "open" "created" "LGTM") tt = (Done None, tt, []).
Proof.
  split; [|split].
  - apply (comment_preconditions (imports := prow)). left. discriminate.
  - apply (comment_preconditions (imports := prow)). right; left. discriminate.
  - apply (comment_preconditions (imports := prow)). right; right.
    intros H. apply command_has_slash in H. discriminate H.
Defined.

Lemma C8_witness :
  BranchSHA (Head (pr3 "def")) <> SHA (claStatus "success") /\
  mutations (trace (handleIssue (imports := prow) (scripted (found ["cncf-cla: no"] "def"))
                      (claStatus "success") "kubernetes" "test-infra"
                      (issue3 ["cncf-cla: no"]) tt)) = [] /\
  result (handleIssue (imports := prow) (scripted (found ["cncf-cla: no"] "def"))
            (claStatus "success") "kubernetes" "test-infra"
            (issue3 ["cncf-cla: no"]) tt) = Done tt.
Proof.
  split; [discriminate|].
  refine (C8_staleness_guard (imports := prow) (scripted (found ["cncf-cla: no"] "def"))
            (claStatus "success") "kubernetes" "test-infra" (issue3 ["cncf-cla: no"]) tt
            (pr3 "def") None tt _ _).
  - reflexivity.
  - discriminate.
Defined.

Lemma C9_witness :
  (trace (handle (imports := prow) (scripted (found ["cncf-cla: no"] "abc"))
            (claStatus "pending") tt) = [] /\
   result (handle (imports := prow) (scripted (found ["cncf-cla: no"] "abc"))
             (claStatus "pending") tt) = Done None) /\
  mutations (trace (handleComment (imports := prow)
                      (scripted (commented ["cncf-cla: no"] [("EasyCLA", "pending")]))
                      checkCla tt)) = [].
Proof.
  split.
  - destruct (proj1 (C9_pending_no_mutation (imports := prow)
                       (scripted (found ["cncf-cla: no"] "abc"))
                       ltac:(discriminate) ltac:(discriminate) ltac:(discriminate))
                (claStatus "pending") tt eq_refl) as (Ht & _ & Hr & _).
    split; [exact Ht|]. apply Hr. discriminate.
  - refine (proj2 (C9_pending_no_mutation (imports := prow)
                     (scripted (commented ["cncf-cla: no"] [("EasyCLA", "pending")]))
                     _ _ _)
              checkCla tt (map lbl ["cncf-cla: no"]) (combined [("EasyCLA", "pending")])
              {| StContext := "EasyCLA"; StState := "pending" |} _ _ _);
      try discriminate; try reflexivity.
    exists None, tt, (pr3 "abc"), None, tt, None, tt. repeat split.
Defined.

Lemma C10_witness :
  mutations (trace (handleIssue (imports := prow) (scripted (found ["cncf-cla: no"] "abc"))
                      (claStatus "error") "kubernetes" "test-infra"
                      (issue3 ["cncf-cla: no"]) tt)) = [] /\
  mutations (trace (handleComment (imports := prow)
                      (scripted (commented ["cncf-cla: yes"] [("EasyCLA", "success")]))
                      checkCla tt)) = [].
Proof.
  split.
  - refine (proj1 (C10_idempotence (imports := prow)
                     (scripted (found ["cncf-cla: no"] "abc")) _ _)
              (claStatus "error") "kubernetes" "test-infra" (issue3 ["cncf-cla: no"]) tt _);
      try discriminate.
    right. repeat split. right; reflexivity.
  - refine (proj2 (C10_idempotence (imports := prow)
                     (scripted (commented ["cncf-cla: yes"] [("EasyCLA", "success")])) _ _)
              checkCla tt (map lbl ["cncf-cla: yes"]) (combined [("EasyCLA", "success")])
              {| StContext := "EasyCLA"; StState := "success" |} _ _ _);
      try discriminate; try reflexivity.
    + exists None, tt, (pr3 "abc"), None, tt, None, tt. repeat split.
    + left. repeat split.
Defined.

(** * Further properties *)

(** ** Runs of the monad, continued *)

Section MoreRuns.
Context {W : Type}.

Lemma result_bind {A B : Type} (m : M W A) (k : A -> M W B) (w : W) :
  result (bind m k w) =
  match result (m w) with
  | Done a => result (k a (final (m w)))
  | Panic => Panic
  end.
Proof.
  unfold bind, result, final.
  destruct (m w) as [[[a|] w1] t1]; simpl; [|reflexivity].
  destruct (k a w1) as [[r w2] t2]; reflexivity.
Qed.

Lemma returns_ret {A : Type} (Q : A -> Prop) (a : A) :
  Q a -> returns_only Q (ret (W := W) a).
Proof. intros H w; exact H. Qed.

Lemma returns_bind {A B : Type} (Q : B -> Prop) (m : M W A) (k : A -> M W B) :
  (forall a, returns_only Q (k a)) -> returns_only Q (bind m k).
Proof.
  intros Hk w. rewrite result_bind. destruct (result (m w)); [apply Hk|exact I].
Qed.

Lemma slept_app t1 t2 : slept (t1 ++ t2) = slept t1 + slept t2.
Proof.
  induction t1 as [|e t1 IH]; [reflexivity|].
  destruct e; simpl; rewrite IH; lia.
Qed.

Lemma slept_none t :
  forallb (fun e => match e with Sleep _ => false | _ => true end) t = true ->
  slept t = 0.
Proof.
  induction t as [|e t IH]; [reflexivity|].
  destruct e; simpl; try exact IH. discriminate.
Qed.

Lemma searches_app t1 t2 : searches (t1 ++ t2) = (searches t1 ++ searches t2)%list.
Proof. apply filter_app. Qed.

Lemma calls_app t1 t2 : calls (t1 ++ t2) = (calls t1 ++ calls t2)%list.
Proof. apply filter_app. Qed.

End MoreRuns.

Ltac footprint_solve :=
  unfold status_path_event, comment_path_event, is_cla_label;
  cbv zeta;
  rewrite ?String.eqb_refl, ?Z.eqb_refl, ?orb_true_r;
  reflexivity.

Ltac footprint_step :=
  first
    [ apply emits_ret
    | apply emits_deref
    | apply emits_emit; footprint_solve
    | apply emits_call; footprint_solve
    | apply emits_bind; [|intros]
    | match goal with
      | |- emits_only _ (match ?x with _ => _ end) => destruct x
      end ].

(** ** The status path, continued *)

Section MoreStatusPath.
Context {imports : Imports} {W : Type}.
Variable gc : gitHubClient W.

(** X1.  A status event with an empty state or an empty context is
    refused: the handler returns the error of an invalid event, calls
    nothing, logs nothing and leaves the client as it was. *)
Theorem invalid_status_event_refused (pc : Agent W) se w :
  State se = "" \/ Context se = "" ->
  handleStatusEvent pc se w =
  (Done (Some (Errorf "invalid status event delivered with empty state/context")),
   w, []).
Proof.
  intros H. unfold handleStatusEvent, handle.
  destruct H as [-> | ->]; [reflexivity|].
  rewrite orb_true_r. reflexivity.
Qed.

(** X2.  A status event of another context than [claContextName] (neither
    field being empty) is none of the plugin's business: nil, no call, no log
    entry, whatever its state. *)
Theorem foreign_context_ignored (pc : Agent W) se w :
  State se <> "" -> Context se <> "" -> Context se <> claContextName ->
  handleStatusEvent pc se w = (Done None, w, []).
Proof.
  intros Hs Hc Hn. unfold handleStatusEvent, handle.
  apply String.eqb_neq in Hs, Hc, Hn. rewrite Hs, Hc, Hn. reflexivity.
Qed.

Lemma early_checks_dec se :
  passes_early_checks se \/
  State se = "" \/ Context se = "" \/ Context se <> claContextName \/
  State se = StatusPending.
Proof.
  unfold passes_early_checks.
  destruct (String.eqb_spec (State se) ""); [tauto|].
  destruct (String.eqb_spec (Context se) claContextName); [|tauto].
  destruct (String.eqb_spec (State se) StatusPending); tauto.
Qed.

Lemma handle_unchecked se w :
  ~ passes_early_checks se ->
  handle gc se w =
  (Done (if ((State se =? "") || (Context se =? ""))%string
         then Some (Errorf "invalid status event delivered with empty state/context")
         else None), w, []).
Proof.
  intros H. unfold handle.
  destruct ((State se =? "") || (Context se =? ""))%string eqn:E1; [reflexivity|].
  destruct (negb (Context se =? claContextName)%string) eqn:E2; [reflexivity|].
  destruct (State se =? StatusPending)%string eqn:E3; [reflexivity|].
  exfalso. apply H. apply orb_false_iff in E1. destruct E1 as [Es Ec].
  apply negb_false_iff in E2.
  repeat split.
  - apply String.eqb_neq, Es.
  - apply String.eqb_eq, E2.
  - apply String.eqb_neq, E3.
Qed.

(** An error out of the retry loop is the error of one of its searches:
    the searches before it found nothing, and it comes back wrapped. *)
Lemma searchLoop_inl_at query n :
  forall issues w e,
    result (searchLoop gc query n issues w) = Done (inl e) ->
    exists k found cause w0,
      (k < n)%nat /\ always_empty gc query k w /\
      FindIssues gc query "" false (after_searches gc query k w) =
        ((found, Some cause), w0) /\
      e = ErrorfWrap "error searching for issues matching commit: " cause.
Proof.
  induction n as [|n IH]; intros issues w e; cbn [searchLoop].
  - discriminate.
  - rewrite result_bind. unfold findIssues, call.
    destruct (FindIssues gc query "" false w) as [[found [c|]] w0] eqn:E0;
      cbn [result final fst snd].
    + intros [= <-]. exists 0%nat, found, c, w0.
      repeat split; [lia|exact E0].
    + destruct (0 <? length found)%nat eqn:L; [discriminate|].
      rewrite result_bind. cbn [result final emit fst snd]. intros H.
      destruct (IH found w0 e H) as (k & f & cause & w1 & Hk & Ha & Ef & ->).
      exists (S k), f, cause, w1.
      cbn [always_empty after_searches]. rewrite E0. cbn [fst snd].
      repeat split; [lia| |exact Ha|exact Ef].
      destruct found; [reflexivity|discriminate L].
Qed.

(** X3.  Where the errors of [handle] come from.  [handle] returns an error
    in two cases and no other: the error of an invalid event, exactly when
    the state or the context of the event is empty; and, for an event that
    passes the early checks, the error that one of the five searches
    answered (the searches before it having found nothing), wrapped.  The
    error of a failed fetch of a pull request or of a failed label call is
    therefore never returned. *)
Theorem handle_error_provenance se w e :
  let query := searchQuery (SHA se) (Login (Owner (SERepo se))) (Name (SERepo se)) in
  result (handle gc se w) = Done (Some e) <->
  (e = Errorf "invalid status event delivered with empty state/context" /\
   (State se = "" \/ Context se = "")) \/
  (passes_early_checks se /\
   exists k found cause w0,
     (k < maxRetries)%nat /\ always_empty gc query k w /\
     FindIssues gc query "" false (after_searches gc query k w) =
       ((found, Some cause), w0) /\
     e = ErrorfWrap "error searching for issues matching commit: " cause).
Proof.
  intros query. split.
  - intros H.
    destruct (early_checks_dec se) as [Hc|Hn].
    + right. split; [exact Hc|].
      destruct (searchLoop_returns gc query maxRetries [] w) as (r & w1 & t & E).
      rewrite (handle_searched gc se w _ _ _ Hc E) in H.
      destruct r as [e0|issues].
      * injection H as <-.
        apply (searchLoop_inl_at query maxRetries [] w). rewrite E. reflexivity.
      * cbv zeta in H. unfold result at 1 in H. cbn [fst] in H.
        destruct (result (forIssues gc se _ _ issues w1)); discriminate H.
    + left. rewrite handle_unchecked in H.
      * cbn [result fst] in H.
        destruct ((State se =? "") || (Context se =? ""))%string eqn:E1;
          [|discriminate H].
        injection H as <-. split; [reflexivity|].
        apply orb_true_iff in E1.
        destruct E1 as [E1|E1]; apply String.eqb_eq in E1; tauto.
      * unfold passes_early_checks. intros (Hs & Hc & Hp).
        destruct Hn as [Hn|[Hn|[Hn|Hn]]]; try contradiction.
        rewrite Hc in Hn. discriminate Hn.
  - intros [[-> H]|(Hc & k & found & cause & w0 & Hk & Ha & Ef & ->)].
    + unfold handle. destruct H as [-> | ->]; [reflexivity|].
      rewrite orb_true_r. reflexivity.
    + pose proof (searchLoop_error_at gc query k (maxRetries - S k) [] w found cause w0
                    Ha Ef) as E.
      replace (k + S (maxRetries - S k))%nat with maxRetries in E by lia.
      rewrite (handle_searched gc se w _ _ _ Hc E). reflexivity.
Qed.

(** The retry loop: at most [n] searches, all with the query, each failed
    attempt followed by ten seconds of sleep. *)
Lemma searchLoop_bounds query n :
  forall issues w,
    (length (searches (trace (searchLoop gc query n issues w))) <= n)%nat /\
    0 <= slept (trace (searchLoop gc query n issues w)) <= 10 * Z.of_nat n.
Proof.
  induction n as [|n IH]; intros issues w.
  - cbn. split; [lia|lia].
  - cbn [searchLoop]. rewrite trace_bind.
    unfold findIssues, call.
    destruct (FindIssues gc query "" false w) as [[found [c|]] w0];
      cbn [result final trace fst snd].
    + unfold ret. cbn [result trace fst snd app searches filter is_search length slept].
      split; lia.
    + destruct (0 <? length found)%nat.
      * unfold ret. cbn [result trace fst snd app searches filter is_search length slept].
        split; lia.
      * rewrite trace_bind. cbn [result final trace emit fst snd].
        rewrite !searches_app, !slept_app, !length_app.
        destruct (IH found w0) as [H1 H2]. cbn [searches filter is_search length slept app].
        split; lia.
Qed.

Lemma forIssues_no_sleep se org repo issues :
  emits_only (fun e => match e with Sleep _ => false | _ => true end)
    (forIssues gc se org repo issues).
Proof.
  induction issues as [|issue rest IH]; simpl.
  - apply emits_ret.
  - apply emits_bind; [|intros _; exact IH].
    unfold handleIssue, removeLabel_logged, addLabel_logged, removeLabel, addLabel,
      getPullRequest, log_if_err, logf.
    cbv zeta. emits.
Qed.

(** X4.  Whatever the client answers, [handle] searches at most five times
    and sleeps at most fifty seconds. *)
Theorem handle_search_budget se w :
  (length (searches (trace (handle gc se w))) <= 5)%nat /\
  0 <= slept (trace (handle gc se w)) <= 50.
Proof.
  destruct (early_checks_dec se) as [Hc|Hn].
  - destruct (searchLoop_returns gc
                (searchQuery (SHA se) (Login (Owner (SERepo se))) (Name (SERepo se)))
                maxRetries [] w) as (r & w1 & t & E).
    pose proof (searchLoop_bounds
                  (searchQuery (SHA se) (Login (Owner (SERepo se))) (Name (SERepo se)))
                  maxRetries [] w) as [B1 B2].
    rewrite E in B1, B2. cbn [trace snd] in B1, B2. unfold maxRetries in B1, B2.
    rewrite (handle_searched gc se w _ _ _ Hc E).
    destruct r as [e0|issues].
    + cbn [trace snd searches filter is_search slept]. fold (searches t). split; lia.
    + cbv zeta.
      pose proof (forIssues_searches gc se (Login (Owner (SERepo se)))
                    (Name (SERepo se)) issues w1) as F1.
      pose proof (slept_none _ (forIssues_no_sleep se (Login (Owner (SERepo se)))
                                  (Name (SERepo se)) issues w1)) as F2.
      unfold trace in *. cbn [snd] in *.
      match goal with
      | |- context [(?x :: t ++ ?y :: ?z)%list] =>
          change (x :: t ++ y :: z)%list with ([x] ++ t ++ [y] ++ z)%list
      end.
      rewrite !searches_app, !slept_app, !length_app, F1, F2.
      cbn [searches filter is_search length slept]. split; lia.
  - rewrite handle_unchecked.
    + cbn. split; lia.
    + unfold passes_early_checks. intros (Hs & Hc & Hp).
      destruct Hn as [Hn|[Hn|[Hn|Hn]]]; try contradiction.
      rewrite Hc in Hn. discriminate Hn.
Qed.

(** The attempt that finds issues, after [k] attempts that found nothing. *)
Lemma searchLoop_found_at query k :
  forall n issues w found w0,
    always_empty gc query k w ->
    FindIssues gc query "" false (after_searches gc query k w) = ((found, None), w0) ->
    found <> [] ->
    searchLoop gc query (k + S n) issues w =
    (Done (inr found), w0,
     (concat (repeat [CallFindIssues query "" false; Sleep 10] k)
      ++ [CallFindIssues query "" false])%list).
Proof.
  induction k as [|k IH]; intros n issues w found w0 H E Hne.
  - simpl in E. simpl. unfold bind, findIssues, call. rewrite E.
    destruct found; [contradiction|reflexivity].
  - destruct H as [H0 Hk]. simpl in E.
    change (S k + S n)%nat with (S (k + S n)). cbn [searchLoop].
    unfold bind at 1. unfold findIssues at 1, call at 1.
    destruct (FindIssues gc query "" false w) as [[f0 e0] w'].
    simpl in H0, Hk, E. injection H0 as -> ->.
    cbn [length Nat.ltb Nat.leb].
    unfold bind at 1, emit at 1.
    rewrite (IH n [] w' found w0 Hk E Hne). reflexivity.
Qed.

Lemma searches_retries query k :
  searches (concat (repeat [CallFindIssues query "" false; Sleep 10] k)) =
  repeat (CallFindIssues query "" false) k.
Proof. induction k as [|k IH]; [reflexivity|]. simpl. rewrite IH. reflexivity. Qed.

Lemma slept_retries query k :
  slept (concat (repeat [CallFindIssues query "" false; Sleep 10] k)) = 10 * Z.of_nat k.
Proof.
  induction k as [|k IH]; [reflexivity|].
  cbn [repeat concat app slept]. rewrite IH. lia.
Qed.

(** X5.  The search is retried until it finds something: when the first
    [k] attempts (fewer than five) find nothing and the next one finds
    issues, [handle] makes [k + 1] searches, sleeps ten seconds after each of
    the [k] empty ones, and goes on with the issues of the last search from
    the client state that search left. *)
Theorem retry_until_found se w k found w0 :
  passes_early_checks se ->
  let org := Login (Owner (SERepo se)) in
  let repo := Name (SERepo se) in
  let query := searchQuery (SHA se) org repo in
  (k < maxRetries)%nat ->
  always_empty gc query k w ->
  FindIssues gc query "" false (after_searches gc query k w) = ((found, None), w0) ->
  found <> [] ->
  trace (handle gc se w) =
  (Log Info None None "Searching for PRs matching the commit."
   :: concat (repeat [CallFindIssues query "" false; Sleep 10] k)
   ++ CallFindIssues query "" false
   :: Log Info None None
        ("Found " ++ itoa (Z.of_nat (length found)) ++ " PRs matching commit.")
   :: trace (forIssues gc se org repo found w0))%list /\
  length (searches (trace (handle gc se w))) = S k /\
  slept (trace (handle gc se w)) = 10 * Z.of_nat k.
Proof.
  intros Hc org repo query Hk H E0 Hne.
  pose proof (searchLoop_found_at query k (maxRetries - S k) [] w found w0 H E0 Hne) as E.
  replace (k + S (maxRetries - S k))%nat with maxRetries in E by lia.
  rewrite (handle_searched gc se w _ _ _ Hc E). cbv zeta.
  pose proof (forIssues_searches gc se org repo found w0) as F1.
  pose proof (slept_none _ (forIssues_no_sleep se org repo found w0)) as F2.
  fold org repo. unfold trace in *. cbn [snd] in *.
  rewrite <- !app_assoc. cbn [app].
  split; [reflexivity|].
  match goal with
  | |- context [(?x :: ?c ++ ?f :: ?y :: ?z)%list] =>
      change (x :: c ++ f :: y :: z)%list with ([x] ++ c ++ [f; y] ++ z)%list
  end.
  rewrite !searches_app, !slept_app, !length_app, F1, F2.
  rewrite searches_retries, slept_retries, repeat_length.
  cbn [searches filter is_search length slept]. split; lia.
Qed.

Lemma searchLoop_footprint se n :
  forall issues,
    emits_only (status_path_event se)
      (searchLoop gc
         (searchQuery (SHA se) (Login (Owner (SERepo se))) (Name (SERepo se)))
         n issues).
Proof.
  induction n as [|n IH]; intros issues.
  - apply emits_ret.
  - cbn [searchLoop]. unfold findIssues. repeat footprint_step. apply IH.
Qed.

Lemma handleIssue_footprint se issue :
  emits_only (status_path_event se)
    (handleIssue gc se (Login (Owner (SERepo se))) (Name (SERepo se)) issue).
Proof.
  unfold handleIssue, removeLabel_logged, addLabel_logged, removeLabel, addLabel,
    getPullRequest, log_if_err, logf.
  cbv zeta. repeat footprint_step.
Qed.

Lemma forIssues_footprint se issues :
  emits_only (status_path_event se)
    (forIssues gc se (Login (Owner (SERepo se))) (Name (SERepo se)) issues).
Proof.
  induction issues as [|issue rest IH]; simpl.
  - apply emits_ret.
  - apply emits_bind; [apply handleIssue_footprint|intros _; exact IH].
Qed.

(** X6.  What the status path can do at all: search with the one query of
    the event (no sort, descending), fetch pull requests of the repository of
    the event, add or remove one of the two CLA labels in that repository,
    sleep ten seconds, and log.  It never fetches the labels of an issue or
    a combined status, and never touches another label or repository. *)
Theorem status_path_footprint se w :
  forallb (status_path_event se) (trace (handle gc se w)) = true.
Proof.
  revert w. change (emits_only (status_path_event se) (handle gc se)).
  unfold handle, logf. cbv zeta.
  repeat first
    [ apply searchLoop_footprint
    | apply forIssues_footprint
    | footprint_step ].
Qed.

Lemma never_panics_ret {A : Type} (a : A) : never_panics (ret (W := W) a).
Proof. intros w; discriminate. Qed.

Lemma never_panics_emit (e : Event) : never_panics (emit (W := W) e).
Proof. intros w; discriminate. Qed.

Lemma never_panics_call {A : Type} (e : Event) (f : W -> A * W) :
  never_panics (call e f).
Proof. intros w. unfold call. destruct (f w). discriminate. Qed.

Lemma never_panics_deref {A B : Type} (a : A) (field : A -> B) :
  never_panics (deref (W := W) (Some a) field).
Proof. intros w; discriminate. Qed.

Lemma never_panics_bind {A B : Type} (m : M W A) (k : A -> M W B) :
  never_panics m -> (forall a, never_panics (k a)) -> never_panics (bind m k).
Proof.
  intros Hm Hk w. rewrite result_bind.
  destruct (result (m w)) eqn:E; [apply Hk|]. exfalso. exact (Hm w E).
Qed.

Lemma never_panics_after_call {A B : Type} (e : Event) (f : W -> A * W)
    (k : A -> M W B) :
  (forall w, result (k (fst (f w)) (snd (f w))) <> Panic) ->
  never_panics (bind (call e f) k).
Proof.
  intros H w. rewrite result_bind. unfold call.
  specialize (H w). destruct (f w) as [a w1]. exact H.
Qed.

Ltac never_panics_step :=
  first
    [ apply never_panics_ret
    | apply never_panics_emit
    | apply never_panics_call
    | apply never_panics_deref
    | apply never_panics_bind; [|intros]
    | match goal with
      | |- never_panics (match ?x with _ => _ end) => destruct x
      end ].

Lemma handleIssue_never_panics se org repo issue :
  nil_only_with_error gc -> never_panics (handleIssue gc se org repo issue).
Proof.
  intros Hn. unfold handleIssue. cbv zeta.
  destruct (HasLabel issue ClaYes && _); [apply never_panics_emit|].
  destruct (HasLabel issue ClaNo && _); [apply never_panics_emit|].
  apply never_panics_bind; [apply never_panics_emit|intros _].
  unfold getPullRequest. apply never_panics_after_call. intros w.
  pose proof (Hn org repo (IssueNumber issue) w) as Hw.
  destruct (GetPullRequest gc org repo (IssueNumber issue) w) as [[pr err] w1].
  cbn [fst snd] in *.
  destruct err as [e|]; [discriminate|].
  destruct pr as [pr|]; [|exfalso; apply Hw; reflexivity].
  revert w1.
  change (never_panics
            (headSHA <- deref (Some pr) (fun p => BranchSHA (Head p)) ;;
             if negb (headSHA =? SHA se)%string
             then logf Info (Some (IssueNumber issue)) None
                    "Event is not for PR HEAD, skipping."
             else
               number <- deref (Some pr) PRNumber ;;
               if (State se =? StatusSuccess)%string
               then
                 (if HasLabel issue ClaNo
                  then removeLabel_logged gc (Some (IssueNumber issue)) org repo number ClaNo
                  else ret tt) ;;;
                 addLabel_logged gc (Some (IssueNumber issue)) org repo number ClaYes
               else
                 (if HasLabel issue ClaYes
                  then removeLabel_logged gc (Some (IssueNumber issue)) org repo number ClaYes
                  else ret tt) ;;;
                 addLabel_logged gc (Some (IssueNumber issue)) org repo number ClaNo)).
  unfold removeLabel_logged, addLabel_logged, removeLabel, addLabel, log_if_err, logf.
  repeat never_panics_step.
Qed.

Lemma forIssues_never_panics se org repo issues :
  nil_only_with_error gc -> never_panics (forIssues gc se org repo issues).
Proof.
  intros Hn. induction issues as [|issue rest IH]; simpl.
  - apply never_panics_ret.
  - apply never_panics_bind; [apply handleIssue_never_panics, Hn|intros _; exact IH].
Qed.

Lemma searchLoop_never_panics query n :
  forall issues, never_panics (searchLoop gc query n issues).
Proof.
  induction n as [|n IH]; intros issues.
  - apply never_panics_ret.
  - cbn [searchLoop]. unfold findIssues. repeat never_panics_step. apply IH.
Qed.

(** X7.  Against a client that hands back a nil pull request only together
    with an error, [handle] never panics: it returns, with nil or with an
    error. *)
Theorem status_path_never_panics se w :
  nil_only_with_error gc -> result (handle gc se w) <> Panic.
Proof.
  intros Hn. revert w. change (never_panics (handle gc se)).
  unfold handle, logf. cbv zeta.
  repeat first
    [ apply searchLoop_never_panics
    | apply (forIssues_never_panics _ _ _ _ Hn)
    | never_panics_step ].
Qed.

Lemma handleIssue_fetches se org repo issue w :
  up_to_date se issue = false ->
  In (CallGetPullRequest org repo (IssueNumber issue))
     (trace (handleIssue gc se org repo issue w)).
Proof.
  unfold up_to_date. intros Hu.
  apply orb_false_iff in Hu. destruct Hu as [Hu1 Hu2].
  unfold handleIssue. cbv zeta. rewrite Hu1, Hu2.
  rewrite trace_bind. cbn [result logf emit fst snd trace final].
  right. rewrite trace_bind.
  unfold getPullRequest at 1 2, call.
  destruct (GetPullRequest gc org repo (IssueNumber issue) w) as [[pr err] w1].
  cbn [result fst trace snd]. left. reflexivity.
Qed.

(** X8.  No candidate is lost to the trouble of another: against a client
    that hands back a nil pull request only together with an error, the
    pull request of every issue found that does not yet carry the label of
    the verdict is fetched, whatever happened to the issues before it (a
    failed fetch, a stale head commit, a failed label call). *)
Theorem every_candidate_is_fetched se org repo issues issue w :
  nil_only_with_error gc ->
  In issue issues ->
  up_to_date se issue = false ->
  In (CallGetPullRequest org repo (IssueNumber issue))
     (trace (forIssues gc se org repo issues w)).
Proof.
  intros Hn Hin Hu. revert w.
  induction issues as [|first rest IH]; intros w; [destruct Hin|].
  cbn [forIssues]. rewrite trace_bind.
  pose proof (handleIssue_never_panics se org repo first Hn w) as Hp.
  destruct (result (handleIssue gc se org repo first w)) as [u|]; [|contradiction].
  apply in_or_app. destruct Hin as [<-|Hin].
  - left. apply handleIssue_fetches, Hu.
  - right. apply IH, Hin.
Qed.

(** X9.  A candidate whose pull request cannot be fetched is skipped with
    a warning: the fetch is the only call, whether or not a pull request came
    back next to the error, and the loop goes on. *)
Theorem failed_fetch_skips_candidate se org repo issue w pr e w1 :
  up_to_date se issue = false ->
  GetPullRequest gc org repo (IssueNumber issue) w = ((pr, Some e), w1) ->
  handleIssue gc se org repo issue w =
  (Done tt, w1,
   [Log Info (Some (IssueNumber issue)) None
      "PR labels may be out of date. Getting pull request info.";
    CallGetPullRequest org repo (IssueNumber issue);
    Log Warning (Some (IssueNumber issue)) (Some e)
      ("Unable to fetch PR-" ++ itoa (IssueNumber issue) ++ " from " ++ org
       ++ "/" ++ repo ++ ".")]).
Proof.
  unfold up_to_date. intros Hu E.
  apply orb_false_iff in Hu. destruct Hu as [Hu1 Hu2].
  unfold handleIssue. cbv zeta. rewrite Hu1, Hu2.
  unfold bind, logf, emit, getPullRequest, call. rewrite E. reflexivity.
Qed.

End MoreStatusPath.

Ltac never_panics_go :=
  repeat first
    [ apply never_panics_ret
    | apply never_panics_emit
    | apply never_panics_call
    | apply never_panics_deref
    | apply never_panics_bind; [|intros]
    | match goal with
      | |- never_panics (match ?x with _ => _ end) => destruct x
      end ].

(** ** Label calls *)

Section LabelCalls.
Context {imports : Imports} {W : Type}.
Variable gc : gitHubClient W.

Lemma maybe_remove_calls (b : bool) l org repo number label w :
  exists t,
    (if b then removeLabel_logged gc l org repo number label else ret tt) w =
    (Done tt, (if b then snd (RemoveLabel gc org repo number label w) else w), t) /\
    calls t = if b then [CallRemoveLabel org repo number label] else [].
Proof.
  destruct b.
  - destruct (removeLabel_logged_run gc l org repo number label w) as (t & E & _ & Ct).
    exists (CallRemoveLabel org repo number label :: t).
    split; [exact E|]. change (?x :: t) with ([x] ++ t)%list.
    rewrite calls_app, Ct. reflexivity.
  - exists []. split; reflexivity.
Qed.

Lemma maybe_add_calls (b : bool) l org repo number label w :
  exists t,
    (if b then addLabel_logged gc l org repo number label else ret tt) w =
    (Done tt, (if b then snd (AddLabel gc org repo number label w) else w), t) /\
    calls t = if b then [CallAddLabel org repo number label] else [].
Proof.
  destruct b.
  - destruct (addLabel_logged_run gc l org repo number label w) as (t & E & _ & Ct).
    exists (CallAddLabel org repo number label :: t).
    split; [exact E|]. change (?x :: t) with ([x] ++ t)%list.
    rewrite calls_app, Ct. reflexivity.
  - exists []. split; reflexivity.
Qed.

(** X10.  The transition of the status path.  For a candidate that does not
    carry the label of the verdict and whose pull request is fetched with the
    head commit of the event, the calls are the fetch and then: for success,
    the removal of the negative label if it is there and the addition of the
    positive one; for any other state (failure, error, or a state the plugin
    does not know), the removal of the positive label if it is there and the
    addition of the negative one.  The label calls carry the number of the
    pull request fetched, and failing label calls change nothing of this. *)
Theorem status_transition se org repo issue w pr w1 :
  up_to_date se issue = false ->
  GetPullRequest gc org repo (IssueNumber issue) w = ((Some pr, None), w1) ->
  BranchSHA (Head pr) = SHA se ->
  result (handleIssue gc se org repo issue w) = Done tt /\
  calls (trace (handleIssue gc se org repo issue w)) =
  CallGetPullRequest org repo (IssueNumber issue) ::
  (if (State se =? StatusSuccess)%string then
     (if HasLabel issue ClaNo then [CallRemoveLabel org repo (PRNumber pr) ClaNo] else [])
     ++ [CallAddLabel org repo (PRNumber pr) ClaYes]
   else
     (if HasLabel issue ClaYes then [CallRemoveLabel org repo (PRNumber pr) ClaYes] else [])
     ++ [CallAddLabel org repo (PRNumber pr) ClaNo])%list.
Proof.
  unfold up_to_date. intros Hu E Hh.
  apply orb_false_iff in Hu. destruct Hu as [Hu1 Hu2].
  unfold handleIssue. cbv zeta. rewrite Hu1, Hu2.
  rewrite (bind_run _ _ _ _ _ _ (eq_refl : logf _ _ _ _ w = (Done tt, w, [_]))).
  assert (Eg : getPullRequest gc org repo (IssueNumber issue) w =
               (Done (Some pr, None), w1,
                [CallGetPullRequest org repo (IssueNumber issue)])).
  { unfold getPullRequest, call. rewrite E. reflexivity. }
  rewrite (bind_run _ _ _ _ _ _ Eg).
  rewrite (bind_run _ _ _ _ _ _
             (eq_refl : deref (Some pr) (fun p => BranchSHA (Head p)) w1 = (Done _, w1, []))).
  rewrite Hh, String.eqb_refl. cbn [negb].
  rewrite (bind_run _ _ _ _ _ _
             (eq_refl : deref (Some pr) PRNumber w1 = (Done _, w1, []))).
  destruct (State se =? StatusSuccess)%string.
  - destruct (maybe_remove_calls (HasLabel issue ClaNo) (Some (IssueNumber issue))
                org repo (PRNumber pr) ClaNo w1) as (t1 & E1 & C1).
    rewrite (bind_run _ _ _ _ _ _ E1).
    match goal with |- context [addLabel_logged gc ?l ?o ?r ?n ?x ?v] =>
      destruct (maybe_add_calls true l o r n x v) as (t2 & E2 & C2) end.
    cbn [negb] in E2. rewrite E2.
    unfold result, trace. cbn [fst snd app].
    split; [reflexivity|].
    change (?a :: ?b :: t1 ++ t2)%list with ([a] ++ [b] ++ t1 ++ t2)%list.
    rewrite !calls_app, C1, C2. reflexivity.
  - destruct (maybe_remove_calls (HasLabel issue ClaYes) (Some (IssueNumber issue))
                org repo (PRNumber pr) ClaYes w1) as (t1 & E1 & C1).
    rewrite (bind_run _ _ _ _ _ _ E1).
    match goal with |- context [addLabel_logged gc ?l ?o ?r ?n ?x ?v] =>
      destruct (maybe_add_calls true l o r n x v) as (t2 & E2 & C2) end.
    cbn [negb] in E2. rewrite E2.
    unfold result, trace. cbn [fst snd app].
    split; [reflexivity|].
    change (?a :: ?b :: t1 ++ t2)%list with ([a] ++ [b] ++ t1 ++ t2)%list.
    rewrite !calls_app, C1, C2. reflexivity.
Qed.

(** The entry of the CLA context: the calls made and the state of the
    client after them. *)
Lemma onClaStatus_calls org repo number y n status w :
  exists t,
    onClaStatus gc org repo number y n status w =
    (Done tt,
     apply_changes gc (comment_changes org repo number y n (StState status)) w, t) /\
    calls t = comment_changes org repo number y n (StState status).
Proof.
  unfold onClaStatus, comment_changes.
  destruct (StState status =? StatusSuccess)%string.
  - destruct (maybe_remove_calls n None org repo number ClaNo w) as (t1 & E1 & C1).
    rewrite (bind_run _ _ _ _ _ _ E1).
    match goal with |- context [(if negb y then _ else _) ?v] =>
      destruct (maybe_add_calls (negb y) None org repo number ClaYes v)
        as (t2 & E2 & C2) end.
    exists (t1 ++ t2)%list. rewrite E2, calls_app, C1, C2.
    unfold result, final, trace. cbn [fst snd].
    destruct n, y; split; reflexivity.
  - destruct (StState status =? StatusFailure)%string.
    + destruct (maybe_remove_calls y None org repo number ClaYes w) as (t1 & E1 & C1).
      rewrite (bind_run _ _ _ _ _ _ E1).
      match goal with |- context [(if negb n then _ else _) ?v] =>
        destruct (maybe_add_calls (negb n) None org repo number ClaNo v)
          as (t2 & E2 & C2) end.
      exists (t1 ++ t2)%list. rewrite E2, calls_app, C1, C2.
      unfold result, final, trace. cbn [fst snd].
      destruct n, y; split; reflexivity.
    + exists []. split; reflexivity.
Qed.

Lemma scanStatuses_calls org repo number y n statuses w :
  exists t,
    scanStatuses gc org repo number y n statuses w =
    (Done tt,
     apply_changes gc
       match find (fun s => (StContext s =? claContextName)%string) statuses with
       | Some status => comment_changes org repo number y n (StState status)
       | None => []
       end w, t) /\
    calls t =
    match find (fun s => (StContext s =? claContextName)%string) statuses with
    | Some status => comment_changes org repo number y n (StState status)
    | None => []
    end.
Proof.
  induction statuses as [|s rest IH]; cbn [scanStatuses find].
  - exists []. split; reflexivity.
  - destruct (StContext s =? claContextName)%string.
    + apply onClaStatus_calls.
    + exact IH.
Qed.

Lemma log_if_err_calls lvl pr err msg (w : W) :
  exists t, log_if_err lvl pr err msg w = (Done tt, w, t) /\ calls t = [].
Proof. destruct err; eexists; split; reflexivity. Qed.

(** A run of the comment path in which the three fetches bring back labels,
    a pull request and a combined status: its calls and the state it leaves
    the client in. *)
Lemma handleComment_run e w ls lerr w1 pr perr w2 cs cerr w3 :
  triggers e ->
  let org := Login (Owner (CERepo e)) in
  let repo := Name (CERepo e) in
  GetIssueLabels gc org repo (Number e) w = ((ls, lerr), w1) ->
  GetPullRequest gc org repo (Number e) w1 = ((Some pr, perr), w2) ->
  GetCombinedStatus gc org repo (BranchSHA (Head pr)) w2 = ((Some cs, cerr), w3) ->
  let changes :=
    match claEntry cs with
    | Some status =>
        comment_changes org repo (Number e) (named ClaYes ls) (named ClaNo ls)
          (StState status)
    | None => []
    end in
  exists t,
    handleComment gc e w = (Done None, apply_changes gc changes w3, t) /\
    calls t =
    (CallGetIssueLabels org repo (Number e)
     :: CallGetPullRequest org repo (Number e)
     :: CallGetCombinedStatus org repo (BranchSHA (Head pr))
     :: changes)%list.
Proof.
  intros (Ho & Ha & Hb) org repo E1 E2 E3 changes.
  unfold handleComment. rewrite Ho, Ha, Hb, !String.eqb_refl. cbn [negb orb].
  fold org repo.
  assert (G1 : getIssueLabels gc org repo (Number e) w =
               (Done (ls, lerr), w1, [CallGetIssueLabels org repo (Number e)])).
  { unfold getIssueLabels, call. rewrite E1. reflexivity. }
  rewrite (bind_run _ _ _ _ _ _ G1).
  match goal with |- context [log_if_err ?a ?b ?c ?d] =>
    destruct (log_if_err_calls a b c d w1) as (l1 & L1 & CL1) end.
  rewrite (bind_run _ _ _ _ _ _ L1).
  rewrite scanLabels_named. cbn [orb].
  assert (G2 : getPullRequest gc org repo (Number e) w1 =
               (Done (Some pr, perr), w2, [CallGetPullRequest org repo (Number e)])).
  { unfold getPullRequest, call. rewrite E2. reflexivity. }
  rewrite (bind_run _ _ _ _ _ _ G2).
  match goal with |- context [log_if_err ?a ?b perr ?d] =>
    destruct (log_if_err_calls a b perr d w2) as (l2 & L2 & CL2) end.
  rewrite (bind_run _ _ _ _ _ _ L2).
  rewrite (bind_run _ _ _ _ _ _
             (eq_refl : deref (Some pr) (fun p => BranchSHA (Head p)) w2 = (Done _, w2, []))).
  assert (G3 : getCombinedStatus gc org repo (BranchSHA (Head pr)) w2 =
               (Done (Some cs, cerr), w3,
                [CallGetCombinedStatus org repo (BranchSHA (Head pr))])).
  { unfold getCombinedStatus, call. rewrite E3. reflexivity. }
  rewrite (bind_run _ _ _ _ _ _ G3).
  match goal with |- context [log_if_err ?a ?b cerr ?d] =>
    destruct (log_if_err_calls a b cerr d w3) as (l3 & L3 & CL3) end.
  rewrite (bind_run _ _ _ _ _ _ L3).
  rewrite (bind_run _ _ _ _ _ _
             (eq_refl : deref (Some cs) Statuses w3 = (Done _, w3, []))).
  destruct (scanStatuses_calls org repo (Number e)
              (named ClaYes ls) (named ClaNo ls) (Statuses cs) w3)
    as (t4 & E4 & C4).
  rewrite (bind_run _ _ _ _ _ _ E4).
  unfold ret, result, final, trace. cbn [fst snd].
  eexists. split; [reflexivity|].
  rewrite !calls_app, CL1, CL2, CL3, C4, app_nil_r. reflexivity.
Qed.

End LabelCalls.

(** ** The comment path, continued *)

Section MoreCommentPath.
Context {imports : Imports} {W : Type}.
Variable gc : gitHubClient W.

(** X11.  The transition of the comment path.  When the three fetches
    bring back labels, a pull request and the combined status of its head
    commit (with or without errors next to them), the handler returns nil
    and its calls are the three fetches, the status being asked for the head
    commit of the pull request as fetched, and then the label changes that
    the first entry of the CLA context asks for: none when there is no such
    entry or its state is neither success nor failure.  The client is left
    in the state after these changes. *)
Theorem comment_transition (pc : Agent W) e w ls lerr w1 pr perr w2 cs cerr w3 :
  triggers e ->
  let org := Login (Owner (CERepo e)) in
  let repo := Name (CERepo e) in
  GetIssueLabels (GitHubClient pc) org repo (Number e) w = ((ls, lerr), w1) ->
  GetPullRequest (GitHubClient pc) org repo (Number e) w1 = ((Some pr, perr), w2) ->
  GetCombinedStatus (GitHubClient pc) org repo (BranchSHA (Head pr)) w2 =
    ((Some cs, cerr), w3) ->
  let changes :=
    match claEntry cs with
    | Some status =>
        comment_changes org repo (Number e) (named ClaYes ls) (named ClaNo ls)
          (StState status)
    | None => []
    end in
  result (handleCommentEvent pc e w) = Done None /\
  calls (trace (handleCommentEvent pc e w)) =
  (CallGetIssueLabels org repo (Number e)
   :: CallGetPullRequest org repo (Number e)
   :: CallGetCombinedStatus org repo (BranchSHA (Head pr))
   :: changes)%list /\
  final (handleCommentEvent pc e w) = apply_changes (GitHubClient pc) changes w3.
Proof.
  intros Ht org repo E1 E2 E3 changes. unfold handleCommentEvent.
  destruct (handleComment_run (GitHubClient pc) e w ls lerr w1 pr perr w2 cs cerr w3
              Ht E1 E2 E3) as (t & E & Ct).
  rewrite E. repeat split. exact Ct.
Qed.

Lemma handleComment_returns_nil e :
  returns_only (fun r => r = None) (handleComment gc e).
Proof.
  unfold handleComment. cbv zeta.
  repeat first
    [ apply returns_ret; reflexivity
    | apply returns_bind; intros
    | match goal with
      | |- returns_only _ (match ?x with _ => _ end) => destruct x
      end ].
Qed.

Lemma scanStatuses_footprint e y n statuses :
  emits_only (comment_path_event e)
    (scanStatuses gc (Login (Owner (CERepo e))) (Name (CERepo e)) (Number e) y n statuses).
Proof.
  induction statuses as [|s rest IH]; cbn [scanStatuses].
  - apply emits_ret.
  - destruct (StContext s =? claContextName)%string; [|exact IH].
    unfold onClaStatus, removeLabel_logged, addLabel_logged, removeLabel, addLabel,
      log_if_err, logf.
    repeat footprint_step.
Qed.

(** X13.  What the comment path can do at all: fetch the labels and the
    pull request of the number of the event, fetch a combined status in its
    repository, add or remove one of the two CLA labels on that number, and
    log.  It never searches, never sleeps, and never touches another label,
    number or repository. *)
Theorem comment_path_footprint e w :
  forallb (comment_path_event e) (trace (handleComment gc e w)) = true.
Proof.
  revert w. change (emits_only (comment_path_event e) (handleComment gc e)).
  unfold handleComment, getIssueLabels, getPullRequest, getCombinedStatus,
    log_if_err, logf.
  cbv zeta.
  repeat first
    [ apply scanStatuses_footprint
    | footprint_step ].
Qed.

Lemma scanStatuses_never_panics org repo number y n statuses :
  never_panics (scanStatuses gc org repo number y n statuses).
Proof.
  induction statuses as [|s rest IH]; cbn [scanStatuses].
  - apply never_panics_ret.
  - destruct (StContext s =? claContextName)%string; [|exact IH].
    unfold onClaStatus, removeLabel_logged, addLabel_logged, removeLabel, addLabel,
      log_if_err, logf.
    never_panics_go.
Qed.

(** X14.  Against a client that never hands back a nil pull request or a
    nil combined status (be it with an error), the comment handler always
    returns nil: no failure of a fetch or of a label call stops it or reaches
    its caller. *)
Theorem comment_path_returns_nil e w :
  (forall org repo number w0, fst (fst (GetPullRequest gc org repo number w0)) <> None) ->
  (forall org repo ref w0, fst (fst (GetCombinedStatus gc org repo ref w0)) <> None) ->
  result (handleComment gc e w) = Done None.
Proof.
  intros Hp Hs.
  assert (Hn : never_panics (handleComment gc e)).
  { unfold handleComment. cbv zeta.
    destruct (negb _ || negb _); [apply never_panics_ret|].
    destruct (negb _); [apply never_panics_ret|].
    unfold getIssueLabels. apply never_panics_bind; [apply never_panics_call|].
    intros [ls lerr].
    apply never_panics_bind;
      [unfold log_if_err, logf; destruct lerr;
       [apply never_panics_emit|apply never_panics_ret]|intros _].
    destruct (scanLabels ls false false) as [y n].
    unfold getPullRequest. apply never_panics_after_call. intros w0.
    pose proof (Hp (Login (Owner (CERepo e))) (Name (CERepo e)) (Number e) w0) as Hw.
    destruct (GetPullRequest gc _ _ (Number e) w0) as [[pr perr] w1].
    cbn [fst snd] in *. destruct pr as [pr|]; [|contradiction].
    revert w1.
    match goal with |- forall w1, result (?m w1) <> Panic =>
      change (never_panics m) end.
    apply never_panics_bind;
      [unfold log_if_err, logf; destruct perr;
       [apply never_panics_emit|apply never_panics_ret]|intros _].
    apply never_panics_bind; [apply never_panics_deref|intros ref].
    unfold getCombinedStatus. apply never_panics_after_call. intros w2.
    pose proof (Hs (Login (Owner (CERepo e))) (Name (CERepo e)) ref w2) as Hw2.
    destruct (GetCombinedStatus gc _ _ ref w2) as [[cs cerr] w3].
    cbn [fst snd] in *. destruct cs as [cs|]; [|contradiction].
    revert w3.
    match goal with |- forall w3, result (?m w3) <> Panic =>
      change (never_panics m) end.
    apply never_panics_bind;
      [unfold log_if_err, logf; destruct cerr;
       [apply never_panics_emit|apply never_panics_ret]|intros _].
    apply never_panics_bind; [apply never_panics_deref|intros statuses].
    apply never_panics_bind; [apply scanStatuses_never_panics|intros _].
    apply never_panics_ret. }
  pose proof (handleComment_returns_nil e w) as Hr.
  specialize (Hn w).
  destruct (result (handleComment gc e w)) as [r|]; [rewrite Hr; reflexivity|contradiction].
Qed.

End MoreCommentPath.

(** X12.  The comment handler never returns an error, whatever the client
    answers: a run ends with nil, or in a panic. *)
Theorem comment_path_returns_no_error {imports : Imports} {W : Type}
    (pc : Agent W) e w :
  result (handleCommentEvent pc e w) = Done None \/
  result (handleCommentEvent pc e w) = Panic.
Proof.
  unfold handleCommentEvent.
  pose proof (handleComment_returns_nil (GitHubClient pc) e w) as H.
  destruct (result (handleComment (GitHubClient pc) e w)) as [r|];
    [left; rewrite H; reflexivity|right; reflexivity].
Qed.

(** ** The trigger pattern, continued *)

Lemma line_start_after before pre :
  line_start pre -> line_start (before ++ String LF pre).
Proof.
  intros [->|(p & ->)]; right.
  - exists before. reflexivity.
  - exists (before ++ String LF p). rewrite append_assoc. reflexivity.
Qed.

Lemma line_end_before post after :
  line_end post -> line_end (post ++ String LF after).
Proof.
  intros [->|(q & ->)]; right.
  - exists after. reflexivity.
  - exists (q ++ String LF after). reflexivity.
Qed.

Lemma pattern_of_match body :
  checkCLARe_MatchString body = true -> pattern_matches body.
Proof.
  unfold checkCLARe_MatchString. intros H.
  destruct (match_from_sound _ _ H) as (pre & rest & -> & Hm & Hp).
  unfold match_here in Hm.
  destruct (match_literal_fold "/check-cla" rest) as [r|] eqn:E; [|discriminate].
  destruct (match_literal_fold_sound _ _ _ E) as (cmd & -> & Hc).
  destruct (spaces_then_eol_sound _ Hm) as (trail & post & -> & Hb & He).
  exists pre, cmd, trail, post. repeat split; try assumption.
  - destruct Hp as [[-> _]|Hp]; [left; reflexivity|right; exact Hp].
  - apply all_blank_space, Hb.
Qed.

Lemma match_of_pattern body :
  pattern_matches body -> checkCLARe_MatchString body = true.
Proof.
  intros (pre & cmd & ws & post & -> & Hp & Hc & Hw & He).
  apply match_from_complete.
  - unfold match_here. rewrite (match_literal_fold_complete _ _ Hc).
    apply spaces_then_eol_complete; assumption.
  - destruct Hp as [->|Hp]; [left; split; reflexivity|right; exact Hp].
Qed.

(** X15.  The command keeps working inside a longer comment: a body that
    triggers still triggers with any lines put before it and any lines put
    after it. *)
Theorem trigger_survives_context body before after :
  checkCLARe_MatchString body = true ->
  checkCLARe_MatchString (before ++ String LF body) = true /\
  checkCLARe_MatchString (body ++ String LF after) = true /\
  checkCLARe_MatchString (before ++ String LF (body ++ String LF after)) = true.
Proof.
  intros H. apply pattern_of_match in H.
  destruct H as (pre & cmd & ws & post & -> & Hp & Hc & Hw & He).
  repeat split; apply match_of_pattern.
  - exists (before ++ String LF pre), cmd, ws, post.
    repeat split; try assumption.
    + rewrite append_assoc. reflexivity.
    + apply line_start_after, Hp.
  - exists pre, cmd, ws, (post ++ String LF after).
    repeat split; try assumption.
    + rewrite !append_assoc. reflexivity.
    + apply line_end_before, He.
  - exists (before ++ String LF pre), cmd, ws, (post ++ String LF after).
    repeat split; try assumption.
    + rewrite !append_assoc. reflexivity.
    + apply line_start_after, Hp.
    + apply line_end_before, He.
Qed.

Lemma match_from_one_line s :
  has_LF s = false -> match_from false s = false.
Proof.
  induction s as [|c s IH]; [reflexivity|].
  cbn [has_LF match_from andb orb]. intros H.
  apply orb_false_iff in H. destruct H as [Hc Hs].
  rewrite Hc. apply IH, Hs.
Qed.

Lemma same_text_one_line pat cmd :
  has_LF pat = false -> same_text pat cmd -> has_LF cmd = false.
Proof.
  intros Hp H. induction H as [|c pat x xs Hx Hxs IH]; [reflexivity|].
  cbn [has_LF] in Hp. apply orb_false_iff in Hp. destruct Hp as [Hc Hpat].
  assert (Hx' : has_LF x = false).
  { destruct Hx as [c|c L|].
    - cbn. rewrite Hc. reflexivity.
    - cbn. rewrite orb_false_r. revert L. clear.
      destruct c as [b0 b1 b2 b3 b4 b5 b6 b7].
      destruct b0, b1, b2, b3, b4, b5, b6, b7; intros H;
        try discriminate H; reflexivity.
    - reflexivity. }
  clear Hx. induction x as [|a x IHx]; [exact (IH Hpat)|].
  cbn [append has_LF] in *. apply orb_false_iff in Hx'. destruct Hx' as [Ha Hx'].
  rewrite Ha. apply IHx, Hx'.
Qed.

Lemma match_here_slash c rest : match_here (String c rest) = true -> c = "/"%char.
Proof.
  unfold match_here. intros H.
  destruct (match_literal_fold "/check-cla" (String c rest)) as [r|] eqn:E;
    [|discriminate].
  destruct (match_literal_fold_sound _ _ _ E) as (cmd & Hs & Hcmd).
  inversion Hcmd as [|p0 pat x xs Hx Hxs Ep Ec]. subst.
  inversion Hx; subst; try discriminate.
  cbn [append] in Hs. injection Hs as -> _. reflexivity.
Qed.

Lemma has_LF_app a b : has_LF (a ++ b) = has_LF a || has_LF b.
Proof.
  induction a as [|c a IH]; simpl; [reflexivity|].
  rewrite IH, orb_assoc. reflexivity.
Qed.

Lemma all_blank_one_line ws : all_blank ws = true -> has_LF ws = false.
Proof.
  induction ws as [|c ws IH]; [reflexivity|].
  cbn [all_blank has_LF]. unfold blank. rewrite !andb_true_iff, negb_true_iff.
  intros [[_ Hc] Hw]. rewrite Hc. apply IH, Hw.
Qed.

Lemma spaces_then_text ws c rest :
  all_blank ws = true -> is_space c = false ->
  spaces_then_eol (ws ++ String c rest) = false.
Proof.
  intros Hw Hc. induction ws as [|d ws IH]; cbn [append spaces_then_eol].
  - rewrite Hc. destruct (Ascii.eqb_spec c LF) as [->|_]; [discriminate Hc|reflexivity].
  - cbn [all_blank] in Hw. unfold blank in Hw.
    rewrite !andb_true_iff, negb_true_iff in Hw. destruct Hw as [[_ Hd] Hw].
    rewrite Hd, (IH Hw), andb_false_r. reflexivity.
Qed.

(** X16.  On a comment of one line the command must stand at the very
    start and be followed by blanks only: a one-line body that begins with a
    byte other than the slash of the command never triggers (so a blank
    before the command defeats it), and neither does the command followed on
    its line, after blanks or at once, by a byte that is not white space. *)
Theorem one_line_trigger_is_strict :
  (forall c rest,
      c <> "/"%char -> has_LF (String c rest) = false ->
      checkCLARe_MatchString (String c rest) = false) /\
  (forall cmd ws c rest,
      same_text "/check-cla" cmd -> all_blank ws = true -> is_space c = false ->
      has_LF rest = false ->
      checkCLARe_MatchString (cmd ++ ws ++ String c rest) = false).
Proof.
  split.
  - intros c rest Hc Hr. unfold checkCLARe_MatchString.
    cbn [has_LF] in Hr. apply orb_false_iff in Hr. destruct Hr as [Hl Hr].
    cbn [match_from andb]. rewrite Hl, (match_from_one_line rest Hr), orb_false_r.
    destruct (match_here (String c rest)) eqn:Hm; [|reflexivity].
    exfalso. apply Hc. exact (match_here_slash c rest Hm).
  - intros cmd ws c rest Hcmd Hw Hs Hr. unfold checkCLARe_MatchString.
    pose proof (same_text_one_line "/check-cla" cmd eq_refl Hcmd) as Hl.
    assert (Hm : match_here (cmd ++ ws ++ String c rest) = false).
    { unfold match_here. rewrite (match_literal_fold_complete _ _ Hcmd).
      apply spaces_then_text; assumption. }
    assert (Hline : has_LF (cmd ++ ws ++ String c rest) = false).
    { rewrite !has_LF_app, Hl, (all_blank_one_line ws Hw). cbn [has_LF orb].
      rewrite Hr, orb_false_r.
      destruct (Ascii.eqb_spec c LF) as [->|_]; [discriminate Hs|reflexivity]. }
    destruct (cmd ++ ws ++ String c rest) as [|x s0] eqn:Es.
    + reflexivity.
    + cbn [match_from andb]. rewrite Hm. cbn [orb].
      cbn [has_LF] in Hline. apply orb_false_iff in Hline. destruct Hline as [Hx Hl0].
      rewrite Hx. apply match_from_one_line, Hl0.
Qed.

(** X17.  The help and the handler agree: whatever the configuration and
    the repositories, [helpProvider] returns no error and a help with exactly
    one command, and the usage and every example it shows for that command
    are bodies that trigger the comment handler. *)
Theorem help_advertises_the_trigger {Configuration OrgRepo : Type}
    (config : Configuration) (enabledRepos : list OrgRepo) :
  snd (helpProvider config enabledRepos) = None /\
  exists command,
    Commands (fst (helpProvider config enabledRepos)) = [command] /\
    Forall (fun body => checkCLARe_MatchString body = true)
      (Usage command :: Examples command).
Proof.
  split; [reflexivity|]. eexists. split; [reflexivity|].
  repeat constructor.
Qed.

(** ** The comment path against a client that keeps the labels *)

Section Store.
Context {imports : Imports}.

Lemma named_lbl name w : named name (map lbl w) = true <-> In name w.
Proof.
  unfold named. induction w as [|x w IH]; cbn [map existsb In lbl LabelName].
  - split; [discriminate|tauto].
  - rewrite orb_true_iff, IH, String.eqb_eq. tauto.
Qed.

Lemma named_lbl_false name w : named name (map lbl w) = false <-> ~ In name w.
Proof.
  rewrite <- named_lbl. destruct (named name (map lbl w)); split; intros H;
    try reflexivity; try discriminate.
  exfalso. apply H. reflexivity.
Qed.

Lemma In_store_remove l r w : In l (store_remove r w) <-> In l w /\ l <> r.
Proof.
  unfold store_remove. rewrite filter_In, negb_true_iff, String.eqb_neq. tauto.
Qed.

Lemma In_store_add l a w : In l (store_add a w) <-> In l w \/ l = a.
Proof.
  unfold store_add. destruct (existsb (String.eqb a) w) eqn:E.
  - apply existsb_exists in E. destruct E as (x & Hx & Hax).
    apply String.eqb_eq in Hax. subst x.
    split; [tauto|]. intros [H|H]; [exact H|subst l; exact Hx].
  - rewrite in_app_iff. cbn [In]. split; intros [H|H]; auto.
    destruct H as [<-|[]]. auto.
Qed.

(** The state of the store after a run of the comment path. *)
Lemma store_run pr cs e w :
  triggers e ->
  final (handleComment (labelStore pr cs) e w) =
  apply_changes (labelStore pr cs)
    match claEntry cs with
    | Some status =>
        comment_changes (Login (Owner (CERepo e))) (Name (CERepo e)) (Number e)
          (named ClaYes (map lbl w)) (named ClaNo (map lbl w)) (StState status)
    | None => []
    end w /\
  mutations (trace (handleComment (labelStore pr cs) e w)) =
  match claEntry cs with
  | Some status =>
      comment_changes (Login (Owner (CERepo e))) (Name (CERepo e)) (Number e)
        (named ClaYes (map lbl w)) (named ClaNo (map lbl w)) (StState status)
  | None => []
  end.
Proof.
  intros Ht.
  destruct (handleComment_run (labelStore pr cs) e w (map lbl w) None w pr None w
              cs None w Ht eq_refl eq_refl eq_refl) as (t & E & _).
  cbv zeta in E. rewrite E. split; [reflexivity|].
  rewrite <- E.
  apply (handleComment_mutations (labelStore pr cs) e w (map lbl w) cs Ht).
  exists None, w, pr, None, w, None, w. repeat split.
Qed.

(** X18.  The comment path settles the labels.  Against a client that
    keeps the labels of the pull request, from any labels whatever (none,
    one, or both CLA labels, among others): after a run for a success entry
    the positive label is there and the negative one is not, after a run for
    a failure entry it is the other way round; every other label is as it
    was; and a second run for the same entry changes nothing. *)
Theorem comment_path_settles pr cs e w status :
  ClaYes <> ClaNo -> StatusSuccess <> StatusFailure ->
  triggers e -> claEntry cs = Some status ->
  let w' := final (handleComment (labelStore pr cs) e w) in
  (StState status = StatusSuccess ->
   In ClaYes w' /\ ~ In ClaNo w' /\
   mutations (trace (handleComment (labelStore pr cs) e w')) = []) /\
  (StState status = StatusFailure ->
   In ClaNo w' /\ ~ In ClaYes w' /\
   mutations (trace (handleComment (labelStore pr cs) e w')) = []) /\
  (forall label, label <> ClaYes -> label <> ClaNo -> (In label w' <-> In label w)).
Proof.
  intros Hyn Hsf Ht Hc w'.
  destruct (store_run pr cs e w Ht) as [Ef _].
  rewrite Hc in Ef. fold w' in Ef.
  assert (Hfs : (StatusFailure =? StatusSuccess)%string = false).
  { apply String.eqb_neq. auto. }
  assert (Hw : (StState status = StatusSuccess ->
                In ClaYes w' /\ ~ In ClaNo w') /\
               (StState status = StatusFailure ->
                In ClaNo w' /\ ~ In ClaYes w') /\
               (forall label, label <> ClaYes -> label <> ClaNo ->
                              (In label w' <-> In label w))).
  { rewrite Ef. clear Ef w'. unfold comment_changes.
    destruct (named ClaYes (map lbl w)) eqn:Ey;
      [apply named_lbl in Ey|apply named_lbl_false in Ey];
      (destruct (named ClaNo (map lbl w)) eqn:En;
       [apply named_lbl in En|apply named_lbl_false in En]);
      (split; [|split]);
      try (intros Hs; rewrite Hs, ?Hfs, ?String.eqb_refl;
           cbn [app apply_changes labelStore AddLabel RemoveLabel snd];
           rewrite ?In_store_add, ?In_store_remove; intuition congruence).
    all: intros label H1 H2;
      destruct (StState status =? StatusSuccess)%string;
      [|destruct (StState status =? StatusFailure)%string];
      cbn [app apply_changes labelStore AddLabel RemoveLabel snd];
      rewrite ?In_store_add, ?In_store_remove; intuition congruence. }
  destruct Hw as (H1 & H2 & H3).
  destruct (store_run pr cs e w' Ht) as [_ Em]. rewrite Hc in Em.
  split; [|split; [|exact H3]].
  - intros Hs. destruct (H1 Hs) as [Hy Hn]. repeat split; trivial.
    rewrite Em. unfold comment_changes. rewrite Hs, String.eqb_refl.
    apply named_lbl in Hy. apply named_lbl_false in Hn. rewrite Hy, Hn. reflexivity.
  - intros Hs. destruct (H2 Hs) as [Hn Hy]. repeat split; trivial.
    rewrite Em. unfold comment_changes. rewrite Hs, Hfs, String.eqb_refl.
    apply named_lbl in Hn. apply named_lbl_false in Hy. rewrite Hy, Hn. reflexivity.
Qed.

End Store.

(** ** The status path against a client that keeps the labels *)

Ltac store_compute Hh :=
  unfold removeLabel_logged, addLabel_logged, removeLabel, addLabel, getPullRequest,
    log_if_err, logf;
  unfold bind, emit, call, deref, ret, final;
  cbn [labelStoreBy GetPullRequest AddLabel RemoveLabel fst snd andb orb negb];
  rewrite ?Hh, ?String.eqb_refl;
  cbn [labelStoreBy GetPullRequest AddLabel RemoveLabel fst snd andb orb negb].

Section StoreBy.
Context {imports : Imports}.
Variable eqv : string -> string -> bool.
Hypothesis eqv_refl : forall a, eqv a a = true.
Hypothesis eqv_sym : forall a b, eqv a b = eqv b a.

Lemma carries_lbl name w :
  existsb (fun l => eqv (LabelName l) name) (map lbl w) = carries eqv name w.
Proof.
  unfold carries. induction w as [|x w IH]; [reflexivity|].
  cbn [map existsb lbl LabelName]. rewrite IH. reflexivity.
Qed.

Lemma carries_add_same a w : carries eqv a (store_add_by eqv a w) = true.
Proof.
  unfold store_add_by. destruct (carries eqv a w) eqn:E; [exact E|].
  unfold carries. rewrite existsb_app. cbn [existsb].
  rewrite eqv_refl, orb_true_r. reflexivity.
Qed.

Lemma carries_add_other a name w :
  eqv a name = false ->
  carries eqv name (store_add_by eqv a w) = carries eqv name w.
Proof.
  intros H. unfold store_add_by. destruct (carries eqv a w); [reflexivity|].
  unfold carries. rewrite existsb_app. cbn [existsb].
  rewrite H, !orb_false_r. reflexivity.
Qed.

Lemma carries_remove_same r w : carries eqv r (store_remove_by eqv r w) = false.
Proof.
  unfold carries, store_remove_by. induction w as [|x w IH]; [reflexivity|].
  cbn [filter]. destruct (eqv x r) eqn:E; cbn [negb]; [exact IH|].
  cbn [existsb]. rewrite E, IH. reflexivity.
Qed.

(** The state of the store after [handle], for an event that passes the
    early checks: the one issue found is handled. *)
Lemma store_handle pr cs se w :
  passes_early_checks se ->
  final (handle (labelStoreBy eqv pr cs) se w) =
  final (handleIssue (labelStoreBy eqv pr cs) se (Login (Owner (SERepo se)))
           (Name (SERepo se))
           {| IssueNumber := PRNumber pr; Labels := map lbl w |} w).
Proof.
  intros Hc.
  rewrite (handle_searched (labelStoreBy eqv pr cs) se w
             (inr [{| IssueNumber := PRNumber pr; Labels := map lbl w |}]) w
             [CallFindIssues
                (searchQuery (SHA se) (Login (Owner (SERepo se))) (Name (SERepo se)))
                "" false] Hc eq_refl).
  cbv zeta. cbn [forIssues]. unfold final at 1. cbn [fst snd].
  unfold bind, ret, final.
  destruct (handleIssue (labelStoreBy eqv pr cs) se _ _ _ w) as [[[u|] w1] t1];
    reflexivity.
Qed.

(** X19.  The status path settles the labels, but for one state.  Let
    names of labels be told apart up to a reflexive and symmetric comparison
    [eqv] (equality, or equality up to case, as [strings.EqualFold] has it),
    let [HasLabel] be the lookup up to [eqv], and let the client keep the
    labels up to [eqv] too.  For an event for the head commit of the pull request: after a
    success event the positive label is there, after a failure or error event
    the negative one is; the opposite label is gone unless both labels were
    there before, in which case the labels are left exactly as they were. *)
Theorem status_path_settles pr cs se w :
  (forall issue name,
      HasLabel issue name = existsb (fun l => eqv (LabelName l) name) (Labels issue)) ->
  eqv ClaYes ClaNo = false ->
  StatusSuccess <> StatusFailure -> StatusSuccess <> StatusError ->
  passes_early_checks se -> BranchSHA (Head pr) = SHA se ->
  let w' := final (handle (labelStoreBy eqv pr cs) se w) in
  (State se = StatusSuccess ->
   carries eqv ClaYes w' = true /\
   (carries eqv ClaNo w' = true <->
    carries eqv ClaYes w = true /\ carries eqv ClaNo w = true)) /\
  (State se = StatusFailure \/ State se = StatusError ->
   carries eqv ClaNo w' = true /\
   (carries eqv ClaYes w' = true <->
    carries eqv ClaYes w = true /\ carries eqv ClaNo w = true)) /\
  (carries eqv ClaYes w = true -> carries eqv ClaNo w = true ->
   State se = StatusSuccess \/ State se = StatusFailure \/ State se = StatusError ->
   w' = w).
Proof.
  intros HL Hyn Hsf Hse Hc Hh w'.
  unfold w'. rewrite (store_handle pr cs se w Hc). clear w'.
  unfold handleIssue. cbv zeta. rewrite !HL. cbn [Labels IssueNumber].
  rewrite !carries_lbl.
  assert (Hny : eqv ClaNo ClaYes = false) by (rewrite eqv_sym; exact Hyn).
  assert (Hfs : (StatusFailure =? StatusSuccess)%string = false)
    by (apply String.eqb_neq; auto).
  assert (Hes : (StatusError =? StatusSuccess)%string = false)
    by (apply String.eqb_neq; auto).
  apply String.eqb_neq in Hsf, Hse.
  destruct (carries eqv ClaYes w) eqn:Ey, (carries eqv ClaNo w) eqn:En;
    (split; [|split]);
    try (intros H1 H2; discriminate);
    try (intros Hs; rewrite Hs, String.eqb_refl, ?Hsf, ?Hse; store_compute Hh;
         rewrite ?carries_add_same, ?(carries_add_other _ _ _ Hyn),
           ?(carries_add_other _ _ _ Hny), ?carries_remove_same, ?Ey, ?En;
         intuition congruence);
    try (intros [Hs|Hs]; rewrite Hs, ?Hfs, ?Hes, ?String.eqb_refl, ?orb_true_r;
         store_compute Hh;
         rewrite ?carries_add_same, ?(carries_add_other _ _ _ Hyn),
           ?(carries_add_other _ _ _ Hny), ?carries_remove_same, ?Ey, ?En;
         intuition congruence).
  intros _ _ [Hs|[Hs|Hs]]; rewrite Hs, ?Hfs, ?Hes, ?String.eqb_refl, ?orb_true_r;
    reflexivity.
Qed.

End StoreBy.

(** ** The further properties at work *)

Lemma scripted_nil_only_with_error s pr err :
  onGetPullRequest s = (Some pr, err) -> nil_only_with_error (scripted s).
Proof.
  intros E org repo number w. cbn [scripted GetPullRequest fst snd].
  rewrite E. cbn [fst]. discriminate.
Defined.

Lemma invalid_status_event_refused_witness :
  handleStatusEvent (imports := prow) {| GitHubClient := scripted nothingFound |}
    (statusEvent "success" "" "abc") tt =
  (Done (Some (Errorf "invalid status event delivered with empty state/context")),
   tt, []).
Proof.
  apply (invalid_status_event_refused (imports := prow)). right. reflexivity.
Defined.

Lemma foreign_context_ignored_witness :
  handleStatusEvent (imports := prow)
    {| GitHubClient := scripted (found ["cncf-cla: no"] "abc") |}
    (statusEvent "success" "tide" "abc") tt = (Done None, tt, []).
Proof.
  apply (foreign_context_ignored (imports := prow)); discriminate.
Defined.

Lemma handle_error_provenance_witness :
  passes_early_checks (imports := prow) (claStatus "success") /\
  exists k found cause w0,
    (k < maxRetries)%nat /\
    always_empty (scripted searchFails)
      "abc repo:kubernetes/test-infra type:pr state:open" k tt /\
    FindIssues (scripted searchFails)
      "abc repo:kubernetes/test-infra type:pr state:open" "" false
      (after_searches (scripted searchFails)
         "abc repo:kubernetes/test-infra type:pr state:open" k tt) =
      ((found, Some cause), w0) /\
    ErrorfWrap "error searching for issues matching commit: " (ClientError "search failed") =
    ErrorfWrap "error searching for issues matching commit: " cause.
Proof.
  destruct (proj1 (handle_error_provenance (imports := prow) (scripted searchFails)
                     (claStatus "success") tt
                     (ErrorfWrap "error searching for issues matching commit: "
                        (ClientError "search failed"))) eq_refl) as [[H _]|H].
  - discriminate H.
  - exact H.
Defined.

Lemma retry_until_found_witness :
  length (searches (trace (handle (imports := prow) (lagging 2 ["cncf-cla: no"] "abc")
                             (claStatus "success") 0%nat))) = 3%nat /\
  slept (trace (handle (imports := prow) (lagging 2 ["cncf-cla: no"] "abc")
                  (claStatus "success") 0%nat)) = 20.
Proof.
  refine (proj2 (retry_until_found (imports := prow) (lagging 2 ["cncf-cla: no"] "abc")
                   (claStatus "success") 0%nat 2 [issue3 ["cncf-cla: no"]] 3%nat
                   _ _ _ _ _)).
  - apply prow_early_checks; discriminate.
  - unfold maxRetries; lia.
  - repeat split.
  - reflexivity.
  - discriminate.
Defined.

Lemma status_path_never_panics_witness :
  result (handle (imports := prow) (scripted (found ["cncf-cla: no"] "abc"))
            (claStatus "success") tt) <> Panic.
Proof.
  apply (status_path_never_panics (imports := prow)).
  apply (scripted_nil_only_with_error _ (pr3 "abc") None). reflexivity.
Defined.

Lemma every_candidate_is_fetched_witness :
  In (CallGetPullRequest "kubernetes" "test-infra" 4)
     (trace (forIssues (imports := prow) (scripted twoFound) (claStatus "success")
               "kubernetes" "test-infra" (fst (onFindIssues twoFound)) tt)).
Proof.
  apply (every_candidate_is_fetched (imports := prow) (scripted twoFound)
           (claStatus "success") "kubernetes" "test-infra" (fst (onFindIssues twoFound))
           {| IssueNumber := 4; Labels := [lbl "cncf-cla: no"] |} tt).
  - apply (scripted_nil_only_with_error _ (pr3 "def") None). reflexivity.
  - right; left; reflexivity.
  - reflexivity.
Defined.

Lemma failed_fetch_skips_candidate_witness :
  handleIssue (imports := prow) (scripted fetchFails) (claStatus "success")
    "kubernetes" "test-infra" (issue3 ["cncf-cla: no"]) tt =
  (Done tt, tt,
   [Log Info (Some 3) None "PR labels may be out of date. Getting pull request info.";
    CallGetPullRequest "kubernetes" "test-infra" 3;
    Log Warning (Some 3) (Some (ClientError "rate limited"))
      "Unable to fetch PR-3 from kubernetes/test-infra."]).
Proof.
  apply (failed_fetch_skips_candidate (imports := prow) (scripted fetchFails)
           (claStatus "success") "kubernetes" "test-infra" (issue3 ["cncf-cla: no"]) tt
           (Some (pr3 "abc")) (ClientError "rate limited") tt);
    reflexivity.
Defined.

Lemma status_transition_witness :
  calls (trace (handleIssue (imports := prow) (scripted (found ["cncf-cla: yes"] "abc"))
                  (claStatus "cancelled") "kubernetes" "test-infra"
                  (issue3 ["cncf-cla: yes"]) tt)) =
  [CallGetPullRequest "kubernetes" "test-infra" 3;
   CallRemoveLabel "kubernetes" "test-infra" 3 "cncf-cla: yes";
   CallAddLabel "kubernetes" "test-infra" 3 "cncf-cla: no"].
Proof.
  refine (proj2 (status_transition (imports := prow)
                   (scripted (found ["cncf-cla: yes"] "abc"))
                   (claStatus "cancelled") "kubernetes" "test-infra"
                   (issue3 ["cncf-cla: yes"]) tt (pr3 "abc") tt _ _ _));
    reflexivity.
Defined.

Lemma comment_transition_witness :
  calls (trace (handleCommentEvent (imports := prow)
                  {| GitHubClient :=
                       scripted (commented ["cncf-cla: no"]
                                   [("tide", "failure"); ("EasyCLA", "success");
                                    ("EasyCLA", "failure")]) |}
                  checkCla tt)) =
  [CallGetIssueLabels "kubernetes" "test-infra" 3;
   CallGetPullRequest "kubernetes" "test-infra" 3;
   CallGetCombinedStatus "kubernetes" "test-infra" "abc";
   CallRemoveLabel "kubernetes" "test-infra" 3 "cncf-cla: no";
   CallAddLabel "kubernetes" "test-infra" 3 "cncf-cla: yes"].
Proof.
  refine (proj1 (proj2 (comment_transition (imports := prow)
            {| GitHubClient :=
                 scripted (commented ["cncf-cla: no"]
                             [("tide", "failure"); ("EasyCLA", "success");
                              ("EasyCLA", "failure")]) |}
            checkCla tt (map lbl ["cncf-cla: no"]) None tt (pr3 "abc") None tt
            (combined [("tide", "failure"); ("EasyCLA", "success"); ("EasyCLA", "failure")])
            None tt _ _ _ _)));
    try reflexivity.
  repeat split.
Defined.

Lemma comment_path_returns_nil_witness :
  result (handleComment (imports := prow) (scripted labelsFail) checkCla tt) = Done None.
Proof.
  apply (comment_path_returns_nil (imports := prow) (scripted labelsFail)).
  - intros org repo number w0. discriminate.
  - intros org repo ref w0. discriminate.
Defined.

Lemma trigger_survives_context_witness :
  checkCLARe_MatchString ("Thanks!" ++ String LF ("/check-cla" ++ String LF "cc @bot")) = true.
Proof.
  apply (proj2 (proj2 (trigger_survives_context "/check-cla" "Thanks!" "cc @bot" eq_refl))).
Defined.

Lemma one_line_trigger_is_strict_witness :
  checkCLARe_MatchString " /check-cla" = false /\
  checkCLARe_MatchString "/check-cla please" = false.
Proof.
  split.
  - apply (proj1 one_line_trigger_is_strict " "%char "/check-cla");
      [discriminate|reflexivity].
  - apply (proj2 one_line_trigger_is_strict "/check-cla" " " "p"%char "lease").
    + change "/check-cla" with
        ("/" ++ "c" ++ "h" ++ "e" ++ "c" ++ "k" ++ "-" ++ "c" ++ "l" ++ "a" ++ "").
      repeat constructor.
    + reflexivity.
    + reflexivity.
    + reflexivity.
Defined.

Lemma comment_path_settles_witness :
  let w' :=
    final (handleComment (imports := prow)
             (labelStore (pr3 "abc") (combined [("EasyCLA", "success")])) checkCla
             ["lgtm"; "cncf-cla: yes"; "cncf-cla: no"]) in
  In "cncf-cla: yes" w' /\ ~ In "cncf-cla: no" w' /\
  mutations (trace (handleComment (imports := prow)
                      (labelStore (pr3 "abc") (combined [("EasyCLA", "success")]))
                      checkCla w')) = [].
Proof.
  refine (proj1 (comment_path_settles (imports := prow) (pr3 "abc")
                   (combined [("EasyCLA", "success")]) checkCla
                   ["lgtm"; "cncf-cla: yes"; "cncf-cla: no"]
                   {| StContext := "EasyCLA"; StState := "success" |} _ _ _ _) _);
    try discriminate; try reflexivity.
  repeat split.
Defined.

Lemma equalFold_refl a : equalFold a a = true.
Proof. apply String.eqb_refl. Defined.

Lemma equalFold_sym a b : equalFold a b = equalFold b a.
Proof. apply String.eqb_sym. Defined.

Lemma status_path_settles_witness :
  let w' :=
    final (handle (imports := prowFold)
             (labelStoreBy equalFold (pr3 "abc") (combined []))
             (claStatus "success") ["lgtm"; "CNCF-CLA: NO"]) in
  carries equalFold "cncf-cla: yes" w' = true /\
  (carries equalFold "cncf-cla: no" w' = true <->
   carries equalFold "cncf-cla: yes" ["lgtm"; "CNCF-CLA: NO"] = true /\
   carries equalFold "cncf-cla: no" ["lgtm"; "CNCF-CLA: NO"] = true).
Proof.
  refine (proj1 (status_path_settles (imports := prowFold) equalFold
                   equalFold_refl equalFold_sym
                   (pr3 "abc") (combined [])
                   (claStatus "success") ["lgtm"; "CNCF-CLA: NO"] _ _ _ _ _ _) _);
    try discriminate; try reflexivity.
  repeat split; discriminate.
Defined.

Lemma checkCLARe_spec_witness :
  checkCLARe_MatchString ("/CHECK-cla" ++ "  " ++ "") = true.
Proof.
  apply (proj2 (checkCLARe_spec ("/CHECK-cla" ++ "  " ++ ""))).
  exists "", "/CHECK-cla", "  ", "". repeat split; try (left; reflexivity).
  change "/CHECK-cla" with
    ("/" ++ "C" ++ "H" ++ "E" ++ "C" ++ "K" ++ "-" ++ "c" ++ "l" ++ "a" ++ "").
  repeat first
    [ apply same_nil
    | apply same_cons;
      [first [apply same_exact | apply (same_upper "c") | apply (same_upper "h")
             | apply (same_upper "e") | apply (same_upper "k")]; reflexivity|] ].
Defined.
